(** * PTYProcess: a shallow embedding of saga/utils/pty_process.py

    The controller object becomes a record, its methods become functions in
    a small state-and-exception monad, and every call into the operating
    system (pty.fork, os.waitpid, select.select, os.read, os.write,
    os.close, time.time) consults a script of answers, so that a run of the
    controller is a function of the scripts.  Loops that the source writes
    as [while True] take a bound on their number of iterations. *)

From Stdlib Require Import Ascii String.
From Stdlib Require Import ZArith List Bool Lia PeanoNat.
Import ListNotations.

Local Open Scope Z_scope.

(** ** Byte strings *)

Definition bytes := list ascii.

(** A literal, as in ["ab"]. *)
Definition bs (s : string) : bytes := list_ascii_of_string s.

Definition CR : ascii := "013"%char.

(** [buf.replace ('\r', '')] *)
Definition strip_cr (buf : bytes) : bytes :=
  filter (fun c => negb (Ascii.eqb c CR)) buf.

Definition no_cr (buf : bytes) : Prop := ~ In CR buf.

(** Python's [s[:k]] and [s[k:]], negative [k] counting from the end. *)
Definition slice_to (k : Z) (s : bytes) : bytes :=
  if k <? 0 then firstn (length s - Z.to_nat (- k)) s
  else firstn (Z.to_nat k) s.

Definition slice_from (k : Z) (s : bytes) : bytes :=
  if k <? 0 then skipn (length s - Z.to_nat (- k)) s
  else skipn (Z.to_nat k) s.

(** [self.cache[-256:]] *)
Definition tail256 (s : bytes) : bytes := slice_from (-256) s.

Definition nonempty (s : bytes) : bool :=
  match s with [] => false | _ :: _ => true end.

(** ** Module constants *)

Definition _CHUNKSIZE : Z := 1024.
(** Clock values and timeouts are counted in milliseconds. *)
Definition _POLLDELAY : Z := 10.
Definition _DEBUG_MAX : Z := 600.

(** ** The operating system seen from the controller *)

(** Process and descriptor numbers as the parent process sees them: the pid
    that [pty.fork] returns to the parent is positive, and so is the master
    descriptor, so that [if self.child] and [if self.parent_out] test for
    [None]. *)
Definition pid := positive.
Definition fd := positive.

(** A decoded wait status ([os.WIFEXITED] and its siblings). *)
Inductive wstatus :=
| WExited (code : Z)
| WSignaled (sig : Z)
| WStopped
| WContinued.

Definition stopped_or_continued (w : wstatus) : bool :=
  match w with WStopped | WContinued => true | _ => false end.

Inductive wait_result :=
| WaitErr (errno : Z)                  (* OSError *)
| WaitOk (wpid : Z) (wstat : wstatus).

Definition ECHILD : Z := 10.

Inductive select_result := SelTimeout | SelReady | SelError.

Inductive read_result :=
| ReadOk (buf : bytes)
| ReadErr (errno : Z).

Inductive write_result :=
| WriteOk (size : nat)
| WriteErr (errno : Z).

Inductive fork_result :=
| ForkErr (errno : Z)
| ForkOk (child : pid) (master : fd) (termios_ok : bool).

(** The answers of the system, call by call: the [k]-th call of a kind gets
    the [k]-th answer of its script. *)
Record OS := {
  darwin     : bool;                       (* sys.platform == 'darwin' *)
  os_waitpid : nat -> wait_result;
  os_select  : nat -> select_result;       (* select for reading *)
  os_read    : nat -> read_result;
  os_time    : nat -> Z;
  os_fork    : nat -> fork_result;
  os_close   : nat -> bool;                (* false: OSError *)
  os_wselect : nat -> select_result;       (* select for writing *)
  os_write   : nat -> write_result
}.

(** How far each script has been consumed, and what was done to the system. *)
Record World := {
  n_waitpid : nat;
  n_select  : nat;
  n_read    : nat;
  n_time    : nat;
  n_fork    : nat;
  n_close   : nat;
  n_wselect : nat;
  n_write   : nat;
  killed    : list pid;                    (* os.kill (pid, SIGKILL) *)
  closes    : list (fd * bool);            (* os.close (fd) and whether it succeeded *)
  ingested  : list bytes                   (* what os.read returned *)
}.

(** ** The controller object *)

Record PTYProcess := {
  command          : list bytes;
  cache            : bytes;
  child            : option pid;
  child_fd         : option fd;
  parent_in        : option fd;
  parent_out       : option fd;
  exit_code        : option Z;
  exit_signal      : option Z;
  recover_max      : nat;
  recover_attempts : nat
}.

Definition set_cache (v : bytes) (p : PTYProcess) : PTYProcess :=
  {| command := command p; cache := v; child := child p;
     child_fd := child_fd p; parent_in := parent_in p;
     parent_out := parent_out p; exit_code := exit_code p;
     exit_signal := exit_signal p; recover_max := recover_max p;
     recover_attempts := recover_attempts p |}.

Definition set_child (v : option pid) (p : PTYProcess) : PTYProcess :=
  {| command := command p; cache := cache p; child := v;
     child_fd := child_fd p; parent_in := parent_in p;
     parent_out := parent_out p; exit_code := exit_code p;
     exit_signal := exit_signal p; recover_max := recover_max p;
     recover_attempts := recover_attempts p |}.

Definition set_child_fd (v : option fd) (p : PTYProcess) : PTYProcess :=
  {| command := command p; cache := cache p; child := child p;
     child_fd := v; parent_in := parent_in p;
     parent_out := parent_out p; exit_code := exit_code p;
     exit_signal := exit_signal p; recover_max := recover_max p;
     recover_attempts := recover_attempts p |}.

Definition set_parent_in (v : option fd) (p : PTYProcess) : PTYProcess :=
  {| command := command p; cache := cache p; child := child p;
     child_fd := child_fd p; parent_in := v;
     parent_out := parent_out p; exit_code := exit_code p;
     exit_signal := exit_signal p; recover_max := recover_max p;
     recover_attempts := recover_attempts p |}.

Definition set_parent_out (v : option fd) (p : PTYProcess) : PTYProcess :=
  {| command := command p; cache := cache p; child := child p;
     child_fd := child_fd p; parent_in := parent_in p;
     parent_out := v; exit_code := exit_code p;
     exit_signal := exit_signal p; recover_max := recover_max p;
     recover_attempts := recover_attempts p |}.

Definition set_exit (code sig : option Z) (p : PTYProcess) : PTYProcess :=
  {| command := command p; cache := cache p; child := child p;
     child_fd := child_fd p; parent_in := parent_in p;
     parent_out := parent_out p; exit_code := code;
     exit_signal := sig; recover_max := recover_max p;
     recover_attempts := recover_attempts p |}.

Definition set_recover_attempts (v : nat) (p : PTYProcess) : PTYProcess :=
  {| command := command p; cache := cache p; child := child p;
     child_fd := child_fd p; parent_in := parent_in p;
     parent_out := parent_out p; exit_code := exit_code p;
     exit_signal := exit_signal p; recover_max := recover_max p;
     recover_attempts := v |}.

(** ** Exceptions *)

(** Where a [se.NoSuccess] is raised. *)
Inductive site :=
| ProcessIO        (* "process I/O failed"               read, child not alive *)
| UnexpectedEOF    (* "unexpected EOF (%s)"              read *)
| ReadFailed       (* "read from process failed ..."     read *)
| ParsingFailed    (* "output parsing failed (%s): %s"   find *)
| DeadWrite        (* "cannot write to dead process"     write *)
| WriteFailed      (* "write to process failed (%s)"     write *)
| WaitpidFailed    (* "waitpid failed: %s"               wait *)
| CouldNotRun      (* "Could not run (%s): %s"           initialize *)
| CreationFailed.  (* "pty or process creation failed"   __init__ *)

#[warnings="-register-all"]
Inductive exn :=
| OSError (errno : Z)
| SelectError                 (* select.error *)
| TypeError                   (* select on a descriptor that is None *)
| TermiosError                (* termios.error *)
| ReError                     (* re.error, from re.compile *)
| BadParameter
| NoSuccess (at_ : site) (cause : option exn) (context : option bytes).

(** ** The monad: state, exceptions and a bound on iterations *)

Record Sys := { self : PTYProcess; world : World }.

Inductive outcome (A : Type) : Type :=
| Ret (a : A) (s : Sys)
| Raise (e : exn) (s : Sys)
| OutOfFuel.

Arguments Ret {A} a s.
Arguments Raise {A} e s.
Arguments OutOfFuel {A}.

Definition M (A : Type) : Type := Sys -> outcome A.

Definition ret {A} (a : A) : M A := fun s => Ret a s.

Definition raise {A} (e : exn) : M A := fun s => Raise e s.

Definition out_of_fuel {A} : M A := fun _ => OutOfFuel.

Definition bind {A B} (m : M A) (f : A -> M B) : M B :=
  fun s => match m s with
           | Ret a s' => f a s'
           | Raise e s' => Raise e s'
           | OutOfFuel => OutOfFuel
           end.

(** [try: m  except Exception as e: h e] *)
Definition try_except {A} (m : M A) (h : exn -> M A) : M A :=
  fun s => match m s with
           | Raise e s' => h e s'
           | o => o
           end.

Definition get {A} (f : PTYProcess -> A) : M A := fun s => Ret (f (self s)) s.

Definition modify (f : PTYProcess -> PTYProcess) : M unit :=
  fun s => Ret tt {| self := f (self s); world := world s |}.

Declare Scope pty_scope.
Delimit Scope pty_scope with pty.

Notation "x <- m ;; k" := (bind m (fun x => k))
  (at level 61, m at next level, right associativity) : pty_scope.
Notation "m ;; k" := (bind m (fun _ => k))
  (at level 61, right associativity) : pty_scope.

Local Open Scope pty_scope.

(** ** World updates *)

Definition upd_world (f : World -> World) : M unit :=
  fun s => Ret tt {| self := self s; world := f (world s) |}.

Definition ask {A} (f : World -> A) : M A := fun s => Ret (f (world s)) s.

Definition tick_waitpid (w : World) : World :=
  {| n_waitpid := S (n_waitpid w); n_select := n_select w; n_read := n_read w;
     n_time := n_time w; n_fork := n_fork w; n_close := n_close w;
     n_wselect := n_wselect w; n_write := n_write w; killed := killed w;
     closes := closes w; ingested := ingested w |}.

Definition tick_select (w : World) : World :=
  {| n_waitpid := n_waitpid w; n_select := S (n_select w); n_read := n_read w;
     n_time := n_time w; n_fork := n_fork w; n_close := n_close w;
     n_wselect := n_wselect w; n_write := n_write w; killed := killed w;
     closes := closes w; ingested := ingested w |}.

Definition tick_read (got : list bytes) (w : World) : World :=
  {| n_waitpid := n_waitpid w; n_select := n_select w; n_read := S (n_read w);
     n_time := n_time w; n_fork := n_fork w; n_close := n_close w;
     n_wselect := n_wselect w; n_write := n_write w; killed := killed w;
     closes := closes w; ingested := ingested w ++ got |}.

Definition tick_time (w : World) : World :=
  {| n_waitpid := n_waitpid w; n_select := n_select w; n_read := n_read w;
     n_time := S (n_time w); n_fork := n_fork w; n_close := n_close w;
     n_wselect := n_wselect w; n_write := n_write w; killed := killed w;
     closes := closes w; ingested := ingested w |}.

Definition tick_fork (w : World) : World :=
  {| n_waitpid := n_waitpid w; n_select := n_select w; n_read := n_read w;
     n_time := n_time w; n_fork := S (n_fork w); n_close := n_close w;
     n_wselect := n_wselect w; n_write := n_write w; killed := killed w;
     closes := closes w; ingested := ingested w |}.

Definition tick_close (f : fd) (ok : bool) (w : World) : World :=
  {| n_waitpid := n_waitpid w; n_select := n_select w; n_read := n_read w;
     n_time := n_time w; n_fork := n_fork w; n_close := S (n_close w);
     n_wselect := n_wselect w; n_write := n_write w; killed := killed w;
     closes := closes w ++ [(f, ok)]; ingested := ingested w |}.

Definition tick_wselect (w : World) : World :=
  {| n_waitpid := n_waitpid w; n_select := n_select w; n_read := n_read w;
     n_time := n_time w; n_fork := n_fork w; n_close := n_close w;
     n_wselect := S (n_wselect w); n_write := n_write w; killed := killed w;
     closes := closes w; ingested := ingested w |}.

Definition tick_write (w : World) : World :=
  {| n_waitpid := n_waitpid w; n_select := n_select w; n_read := n_read w;
     n_time := n_time w; n_fork := n_fork w; n_close := n_close w;
     n_wselect := n_wselect w; n_write := S (n_write w); killed := killed w;
     closes := closes w; ingested := ingested w |}.

Definition log_kill (p : pid) (w : World) : World :=
  {| n_waitpid := n_waitpid w; n_select := n_select w; n_read := n_read w;
     n_time := n_time w; n_fork := n_fork w; n_close := n_close w;
     n_wselect := n_wselect w; n_write := n_write w; killed := killed w ++ [p];
     closes := closes w; ingested := ingested w |}.

(** ** The regular-expression engine

    [re.compile (pattern, re.MULTILINE | re.DOTALL)] and [regex.search
    (data)] belong to Python's library.  [find] uses of a match only that
    there is one and where it ends, so an engine is any pair of a compiler
    that may reject a pattern and a search that yields the span of a match. *)
Class RegexEngine := {
  regex      : Type;
  re_compile : bytes -> option regex;
  re_search  : regex -> bytes -> option (nat * nat)    (* match.span () *)
}.

Section Controller.

Variable os : OS.
Context {RE : RegexEngine}.

(** *** System calls *)

Definition sys_waitpid : M wait_result :=
  r <- ask (fun w => os_waitpid os (n_waitpid w)) ;;
  upd_world tick_waitpid ;;
  ret r.

(** [os.kill (self.child, signal.SIGKILL)]; the source ignores an OSError
    from it, so the answer is not scripted. *)
Definition sys_kill (p : pid) : M unit := upd_world (log_kill p).

Definition sys_time : M Z :=
  t <- ask (fun w => os_time os (n_time w)) ;;
  upd_world tick_time ;;
  ret t.

Definition sys_fork : M fork_result :=
  r <- ask (fun w => os_fork os (n_fork w)) ;;
  upd_world tick_fork ;;
  ret r.

Definition sys_close (f : fd) : M bool :=
  ok <- ask (fun w => os_close os (n_close w)) ;;
  upd_world (tick_close f ok) ;;
  ret ok.

(** [select.select ([f], [], [], _POLLDELAY)]: the ready descriptors. *)
Definition sys_select (f : option fd) : M (list fd) :=
  match f with
  | None => raise TypeError
  | Some f =>
      r <- ask (fun w => os_select os (n_select w)) ;;
      upd_world tick_select ;;
      match r with
      | SelTimeout => ret []
      | SelReady => ret [f]
      | SelError => raise SelectError
      end
  end.

(** [os.read (f, _CHUNKSIZE)] *)
Definition sys_read (f : fd) : M bytes :=
  r <- ask (fun w => os_read os (n_read w)) ;;
  match r with
  | ReadOk buf => upd_world (tick_read [buf]) ;; ret buf
  | ReadErr errno => upd_world (tick_read []) ;; raise (OSError errno)
  end.

(** [select.select ([], [f], [], _POLLDELAY)] *)
Definition sys_wselect (f : option fd) : M (list fd) :=
  match f with
  | None => raise TypeError
  | Some f =>
      r <- ask (fun w => os_wselect os (n_wselect w)) ;;
      upd_world tick_wselect ;;
      match r with
      | SelTimeout => ret []
      | SelReady => ret [f]
      | SelError => raise SelectError
      end
  end.

(** [os.write (f, data)]: the number of bytes written. *)
Definition sys_write (f : fd) (data : bytes) : M nat :=
  r <- ask (fun w => os_write os (n_write w)) ;;
  upd_world tick_write ;;
  match r with
  | WriteOk size => ret size
  | WriteErr errno => raise (OSError errno)
  end.

(** *** initialize *)

Definition initialize : M unit :=
  c <- get child ;;
  match c with
  | Some _ => ret tt                       (* "initialization race" *)
  | None =>
      r <- sys_fork ;;
      match r with
      | ForkErr errno => raise (NoSuccess CouldNotRun (Some (OSError errno)) None)
      | ForkOk p f termios_ok =>
          modify (set_child (Some p)) ;;
          modify (set_child_fd (Some f)) ;;
          (* the parent: clear ECHO on the master *)
          if termios_ok then
            modify (set_parent_in (Some f)) ;;
            modify (set_parent_out (Some f))
          else raise TermiosError
      end
  end.

(** *** finalize *)

(** The [while True] around [os.waitpid (self.child, 0)] in [finalize]. *)
Fixpoint reap (p : pid) (n : nat) : M (option wstatus) :=
  match n with
  | O => out_of_fuel
  | S n' =>
      r <- sys_waitpid ;;
      match r with
      | WaitErr _ =>
          modify (set_exit None None) ;;
          ret None
      | WaitOk wpid wstat =>
          if wpid =? 0 then reap p n' else ret (Some wstat)
      end
  end.

Definition finalize (fuel : nat) (wstat : option wstatus) : M unit :=
  wstat <- match wstat with
           | None =>
               c <- get child ;;
               match c with
               | Some p => sys_kill p ;; reap p fuel
               | None => ret None
               end
           | Some _ => ret wstat
           end ;;
  modify (set_child None) ;;
  match wstat with
  | Some (WExited code) => modify (set_exit (Some code) None)
  | Some (WSignaled sig) => modify (set_exit None (Some sig))
  | _ => ret tt
  end ;;
  po <- get parent_out ;;
  match po with
  | Some f =>
      ok <- sys_close f ;;
      if ok then modify (set_parent_out None) else ret tt  (* except OSError: pass *)
  | None => ret tt
  end.

(** *** alive *)

(** The [while True] of [alive]: [None] when the child runs ([return
    True]), the wait status when the loop is left by [break].  An OSError
    from [os.waitpid] is not caught there. *)
Fixpoint alive_poll (p : pid) (n : nat) : M (option wstatus) :=
  match n with
  | O => out_of_fuel
  | S n' =>
      r <- sys_waitpid ;;
      match r with
      | WaitErr errno => raise (OSError errno)
      | WaitOk wpid wstat =>
          if wpid =? 0 then ret None
          else if stopped_or_continued wstat then alive_poll p n'
          else ret (Some wstat)
      end
  end.

Fixpoint alive_rec (fuel : nat) (recover : bool) (n : nat) : M bool :=
  match n with
  | O => out_of_fuel
  | S n' =>
      c <- get child ;;
      running <- match c with
                 | Some p =>
                     w <- alive_poll p fuel ;;
                     match w with
                     | None => ret true
                     | Some wstat =>
                         modify (set_child None) ;;
                         finalize fuel (Some wstat) ;;
                         ret false
                     end
                 | None => ret false
                 end ;;
      if running then ret true
      else if negb recover then ret false
      else
        a <- get recover_attempts ;;
        m <- get recover_max ;;
        if (m <=? a)%nat then ret false
        else
          modify (set_recover_attempts (a + 1)) ;;
          initialize ;;
          alive_rec fuel true n'
  end.

Definition alive (fuel : nat) (recover : bool) : M bool :=
  alive_rec fuel recover fuel.

(** *** autopsy *)

Inductive report :=
| FalseAlarm (p : pid)                                 (* "false alarm, ..." *)
| Report (code sig : option Z) (last_output : bytes).

Definition autopsy : M report :=
  c <- get child ;;
  match c with
  | Some p => ret (FalseAlarm p)
  | None =>
      code <- get exit_code ;;
      sig <- get exit_signal ;;
      c <- get cache ;;
      ret (Report code sig (tail256 c))
  end.

(** *** read *)

(** "lets see if we still have data in the cache we can return": the test
    made before and after each poll. *)
Definition take_cached (size : Z) : M (option bytes) :=
  c <- get cache ;;
  if nonempty c then
    if size =? 0 then
      modify (set_cache []) ;; ret (Some c)
    else if size <=? Z.of_nat (length c) then
      modify (set_cache (slice_from size c)) ;; ret (Some (slice_to size c))
    else ret None
  else ret None.

Definition drain_cache : M bytes :=
  c <- get cache ;;
  modify (set_cache []) ;;
  ret c.

(** One [select] and, for a ready descriptor, one [os.read] whose bytes
    enter the cache without their carriage returns. *)
Definition poll (fuel : nat) : M unit :=
  po <- get parent_out ;;
  rlist <- sys_select po ;;
  match rlist with
  | [] => ret tt
  | f :: _ =>
      buf <- sys_read f ;;
      if (length buf =? 0)%nat && darwin os then
        finalize fuel None ;;
        c <- get cache ;;
        raise (NoSuccess UnexpectedEOF None (Some (tail256 c)))
      else
        c <- get cache ;;
        modify (set_cache (c ++ strip_cr buf))
  end.

Fixpoint read_loop (fuel : nat) (size timeout start : Z) (n : nat) : M bytes :=
  match n with
  | O => out_of_fuel
  | S n' =>
      r <- take_cached size ;;
      match r with
      | Some d => ret d
      | None =>
          poll fuel ;;
          r <- take_cached size ;;
          match r with
          | Some d => ret d
          | None =>
              if timeout =? 0 then
                c <- get cache ;;
                if nonempty c then drain_cache
                else read_loop fuel size timeout start n'
              else if timeout <? 0 then drain_cache
              else
                now <- sys_time ;;
                if now - start >? timeout then drain_cache
                else read_loop fuel size timeout start n'
          end
      end
  end.

(** The handler of [read]: the exception of the end of file passes
    ([found_eof] is set exactly when it is raised), any other is wrapped. *)
Definition read_handler (e : exn) : M bytes :=
  match e with
  | NoSuccess UnexpectedEOF _ _ => raise e
  | _ =>
      c <- get cache ;;
      raise (NoSuccess ReadFailed (Some e) (Some (tail256 c)))
  end.

Definition read (fuel : nat) (size timeout : Z) : M bytes :=
  a <- alive fuel false ;;
  if negb a then
    c <- get cache ;;
    if nonempty c then raise (NoSuccess ProcessIO None (Some (tail256 c)))
    else raise (NoSuccess ProcessIO None None)
  else
    try_except
      (start <- sys_time ;;
       read_loop fuel size timeout start fuel)
      read_handler.

(** *** find *)

Fixpoint compile_all (patterns : list bytes) : option (list regex) :=
  match patterns with
  | [] => Some []
  | p :: ps =>
      match re_compile p, compile_all ps with
      | Some r, Some rs => Some (r :: rs)
      | _, _ => None
      end
  end.

(** [for n in range (0, len (patts))]: the index of the first pattern whose
    search succeeds, with the end of its match. *)
Fixpoint first_match (patts : list regex) (n : nat) (data : bytes)
  : option (nat * nat) :=
  match patts with
  | [] => None
  | p :: ps =>
      match re_search p data with
      | Some (_, e) => Some (n, e)
      | None => first_match ps (S n) data
      end
  end.

(** The handler of [find] sees the local [data] as it is when the
    exception arrives. *)
Definition parsing {A} (data : bytes) (m : M A) : M A :=
  try_except m
    (fun e => raise (NoSuccess ParsingFailed (Some e) (Some data))).

Fixpoint find_loop (fuel : nat) (patts : list regex) (timeout start : Z)
    (data : bytes) (n : nat) : M (option nat * option bytes) :=
  match n with
  | O => out_of_fuel
  | S n' =>
      match first_match patts 0 data with
      | Some (i, e) =>
          modify (set_cache (skipn e data)) ;;
          ret (Some i, Some (strip_cr (firstn e data)))
      | None =>
          if timeout =? 0 then ret (None, None)
          else
            expired <- (if timeout >? 0 then
                          now <- sys_time ;;
                          ret (now - start >? timeout)
                        else ret false) ;;
            if expired then
              modify (set_cache data) ;;
              ret (None, None)
            else
              more <- parsing data (read fuel 0 _POLLDELAY) ;;
              find_loop fuel patts timeout start (data ++ more) n'
      end
  end.

(** The first data of [find]: the cache, or one read when it is empty. *)
Definition first_data (fuel : nat) : M bytes :=
  data <- drain_cache ;;
  if nonempty data then ret data
  else parsing data (read fuel 0 _POLLDELAY).

Definition find (fuel : nat) (patterns : list bytes) (timeout : Z)
  : M (option nat * option bytes) :=
  start <- sys_time ;;
  data <- first_data fuel ;;
  match compile_all patterns with
  | None => parsing data (raise ReError)
  | Some patts => find_loop fuel patts timeout start data fuel
  end.

(** *** write *)

Fixpoint write_loop (data : bytes) (n : nat) : M unit :=
  match n with
  | O => out_of_fuel
  | S n' =>
      if nonempty data then
        pi <- get parent_in ;;
        wlist <- sys_wselect pi ;;
        match wlist with
        | [] => write_loop data n'
        | f :: _ =>
            size <- sys_write f data ;;
            write_loop (skipn size data) n'
        end
      else ret tt
  end.

Definition write (fuel : nat) (data : bytes) : M unit :=
  a <- alive fuel false ;;
  if negb a then
    c <- get cache ;;
    raise (NoSuccess DeadWrite None (Some (tail256 c)))
  else
    try_except (write_loop data fuel)
      (fun e => raise (NoSuccess WriteFailed (Some e) None)).

(** *** wait *)

Fixpoint wait_loop (fuel : nat) (n : nat) : M unit :=
  match n with
  | O => out_of_fuel
  | S n' =>
      c <- get child ;;
      match c with
      | None => ret tt
      | Some p =>
          r <- sys_waitpid ;;
          match r with
          | WaitErr errno =>
              if errno =? ECHILD then
                modify (set_exit None None) ;;
                finalize fuel None
              else raise (NoSuccess WaitpidFailed (Some (OSError errno)) None)
          | WaitOk wpid wstat =>
              if wpid =? 0 then wait_loop fuel n'
              else if stopped_or_continued wstat then wait_loop fuel n'
              else
                modify (set_child None) ;;
                finalize fuel (Some wstat)
          end
      end
  end.

Definition wait (fuel : nat) : M unit := wait_loop fuel fuel.

(** *** The constructor *)

Definition fresh (cmd : list bytes) : PTYProcess :=
  {| command := cmd; cache := []; child := None; child_fd := None;
     parent_in := None; parent_out := None; exit_code := None;
     exit_signal := None; recover_max := 3; recover_attempts := 0 |}.

Definition __init__ (cmd : list bytes) (w : World) : outcome unit :=
  match cmd with
  | [] => Raise BadParameter {| self := fresh cmd; world := w |}
  | _ :: _ =>
      try_except initialize
        (fun e => raise (NoSuccess CreationFailed (Some e) None))
        {| self := fresh cmd; world := w |}
  end.

(** *** The operations of the controller *)

Inductive op :=
| Read (size timeout : Z)
| Find (patterns : list bytes) (timeout : Z)
| Write (data : bytes)
| Alive (recover : bool)
| Wait
| Finalize (wstat : option wstatus)
| Autopsy.

Definition run (fuel : nat) (o : op) : M unit :=
  match o with
  | Read size timeout => read fuel size timeout ;; ret tt
  | Find patterns timeout => find fuel patterns timeout ;; ret tt
  | Write data => write fuel data
  | Alive recover => alive fuel recover ;; ret tt
  | Wait => wait fuel
  | Finalize wstat => finalize fuel wstat
  | Autopsy => autopsy ;; ret tt
  end.

End Controller.

Arguments first_match {RE} patts n data.
Arguments compile_all {RE} patterns.

(** ** An engine for patterns without metacharacters

    A pattern made of ordinary characters matches its leftmost occurrence
    in the data, which is what [re.search] does for it. *)

Fixpoint starts_with (p d : bytes) : bool :=
  match p, d with
  | [], _ => true
  | _ :: _, [] => false
  | a :: p', c :: d' => Ascii.eqb a c && starts_with p' d'
  end.

Fixpoint occurs_from (p d : bytes) (i : nat) : option (nat * nat) :=
  if starts_with p d then Some (i, (i + length p)%nat)
  else match d with
       | [] => None
       | _ :: d' => occurs_from p d' (S i)
       end.

Definition literal : RegexEngine :=
  {| regex := bytes;
     re_compile := fun p => Some p;
     re_search := fun p d => occurs_from p d 0 |}.

(** ** Sample systems and controllers *)

Module Sample.

(** A system where the child runs and never writes: every [waitpid] says
    "no change", every [select] times out, the clock advances by one
    millisecond per call. *)
Definition silent : OS :=
  {| darwin := false;
     os_waitpid := fun _ => WaitOk 0 (WExited 0);
     os_select := fun _ => SelTimeout;
     os_read := fun _ => ReadOk [];
     os_time := fun k => Z.of_nat k;
     os_fork := fun _ => ForkErr 0;
     os_close := fun _ => true;
     os_wselect := fun _ => SelReady;
     os_write := fun _ => WriteOk 1 |}.

Definition world0 : World :=
  {| n_waitpid := 0; n_select := 0; n_read := 0; n_time := 0; n_fork := 0;
     n_close := 0; n_wselect := 0; n_write := 0; killed := []; closes := [];
     ingested := [] |}.

(** A controller whose child 100 runs behind the master descriptor 3. *)
Definition running (c : bytes) : Sys :=
  {| self := {| command := [bs "/bin/cat"]; cache := c; child := Some 100%positive;
                child_fd := Some 3%positive; parent_in := Some 3%positive;
                parent_out := Some 3%positive; exit_code := None;
                exit_signal := None; recover_max := 3; recover_attempts := 0 |};
     world := world0 |}.

(** The same system, but the child 100 has exited with status 7. *)
Definition exited : OS :=
  {| darwin := false;
     os_waitpid := fun _ => WaitOk 100 (WExited 7);
     os_select := fun _ => SelTimeout;
     os_read := fun _ => ReadOk [];
     os_time := fun k => Z.of_nat k;
     os_fork := fun _ => ForkErr 0;
     os_close := fun _ => true;
     os_wselect := fun _ => SelReady;
     os_write := fun _ => WriteOk 1 |}.

(** The child runs; the first two polls time out, then the master is ready
    and every read brings ["ok\r> "]. *)
Definition talking : OS :=
  {| darwin := false;
     os_waitpid := fun _ => WaitOk 0 (WExited 0);
     os_select := fun k => if (k <? 2)%nat then SelTimeout else SelReady;
     os_read := fun _ => ReadOk (bs "ok" ++ CR :: bs "> ");
     os_time := fun k => Z.of_nat k;
     os_fork := fun _ => ForkErr 0;
     os_close := fun _ => true;
     os_wselect := fun _ => SelReady;
     os_write := fun _ => WriteOk 1 |}.

(** The master polls as ready and reads yield no byte: the child has closed
    its side.  A kill is answered by the status "killed by signal 9". *)
Definition hangup (on_darwin : bool) : OS :=
  {| darwin := on_darwin;
     os_waitpid := fun k => match k with
                            | O => WaitOk 0 (WExited 0)
                            | S _ => WaitOk 100 (WSignaled 9)
                            end;
     os_select := fun _ => SelReady;
     os_read := fun _ => ReadOk [];
     os_time := fun k => Z.of_nat k;
     os_fork := fun _ => ForkErr 0;
     os_close := fun _ => true;
     os_wselect := fun _ => SelReady;
     os_write := fun _ => WriteOk 1 |}.


(** The first [os.close] raises OSError, later ones succeed. *)
Definition close_fails_once : OS :=
  {| darwin := false;
     os_waitpid := fun _ => WaitOk 100 (WSignaled 9);
     os_select := fun _ => SelTimeout;
     os_read := fun _ => ReadOk [];
     os_time := fun k => Z.of_nat k;
     os_fork := fun _ => ForkErr 0;
     os_close := fun k => match k with O => false | S _ => true end;
     os_wselect := fun _ => SelReady;
     os_write := fun _ => WriteOk 1 |}.

(** The child 100 has exited; a fork gives the child 101 behind the
    descriptor 4, and that child runs. *)
Definition respawning : OS :=
  {| darwin := false;
     os_waitpid := fun k => match k with
                            | O => WaitOk 100 (WExited 1)
                            | S _ => WaitOk 0 (WExited 0)
                            end;
     os_select := fun _ => SelTimeout;
     os_read := fun _ => ReadOk [];
     os_time := fun k => Z.of_nat k;
     os_fork := fun _ => ForkOk 101%positive 4%positive true;
     os_close := fun _ => true;
     os_wselect := fun _ => SelReady;
     os_write := fun _ => WriteOk 1 |}.

(** A controller that has used up its recoveries. *)
Definition worn_out : Sys :=
  {| self := set_recover_attempts 3 (self (running [])); world := world0 |}.

(** The child 100 is gone and was reaped by someone else: [os.waitpid]
    raises OSError (ECHILD). *)
Definition reaped : OS :=
  {| darwin := false;
     os_waitpid := fun _ => WaitErr ECHILD;
     os_select := fun _ => SelTimeout;
     os_read := fun _ => ReadOk [];
     os_time := fun k => Z.of_nat k;
     os_fork := fun _ => ForkErr 0;
     os_close := fun _ => true;
     os_wselect := fun _ => SelReady;
     os_write := fun _ => WriteOk 1 |}.

(** The child is stopped, then continued, then runs. *)
Definition suspended : OS :=
  {| darwin := false;
     os_waitpid := fun k => match k with
                            | O => WaitOk 100 WStopped
                            | S O => WaitOk 100 WContinued
                            | S (S _) => WaitOk 0 (WExited 0)
                            end;
     os_select := fun _ => SelTimeout;
     os_read := fun _ => ReadOk [];
     os_time := fun k => Z.of_nat k;
     os_fork := fun _ => ForkErr 0;
     os_close := fun _ => true;
     os_wselect := fun _ => SelReady;
     os_write := fun _ => WriteOk 1 |}.

(** Every child exits at once with status 1; forks succeed. *)
Definition doomed : OS :=
  {| darwin := false;
     os_waitpid := fun _ => WaitOk 100 (WExited 1);
     os_select := fun _ => SelTimeout;
     os_read := fun _ => ReadOk [];
     os_time := fun k => Z.of_nat k;
     os_fork := fun _ => ForkOk 101%positive 4%positive true;
     os_close := fun _ => true;
     os_wselect := fun _ => SelReady;
     os_write := fun _ => WriteOk 1 |}.

(** Where [find] ends on [talking] when it looks for ["#"] or [">"]. *)
Definition final {A} (o : outcome A) (otherwise : Sys) : Sys :=
  match o with Ret _ s => s | Raise _ s => s | OutOfFuel => otherwise end.

Definition prompted : Sys :=
  Eval vm_compute in
    final (find (RE := literal) talking 5 [bs "#"; bs ">"] 50 (running []))
          (running []).

End Sample.

(** * Properties *)

(** ** Byte strings *)

Lemma strip_cr_app (x y : bytes) : strip_cr (x ++ y) = strip_cr x ++ strip_cr y.
Proof. unfold strip_cr. apply filter_app. Qed.

Lemma no_cr_strip_cr (x : bytes) : no_cr (strip_cr x).
Proof.
  unfold no_cr, strip_cr. rewrite filter_In. intros [_ H].
  rewrite Ascii.eqb_refl in H. discriminate.
Qed.

Lemma strip_cr_id (x : bytes) : no_cr x -> strip_cr x = x.
Proof.
  unfold no_cr, strip_cr. induction x as [|c x IH]; intros H; simpl.
  - reflexivity.
  - destruct (Ascii.eqb c CR) eqn:E.
    + apply Ascii.eqb_eq in E. subst c. exfalso. apply H. now left.
    + simpl. f_equal. apply IH. intros Hin. apply H. now right.
Qed.

Lemma no_cr_nil : no_cr [].
Proof. intros H. inversion H. Qed.

Lemma no_cr_app (x y : bytes) : no_cr x -> no_cr y -> no_cr (x ++ y).
Proof. unfold no_cr. intros Hx Hy H. apply in_app_or in H. tauto. Qed.

Lemma no_cr_app_l (x y : bytes) : no_cr (x ++ y) -> no_cr x.
Proof. unfold no_cr. intros H Hx. apply H. apply in_or_app. now left. Qed.

Lemma no_cr_app_r (x y : bytes) : no_cr (x ++ y) -> no_cr y.
Proof. unfold no_cr. intros H Hx. apply H. apply in_or_app. now right. Qed.

Lemma no_cr_firstn (n : nat) (x : bytes) : no_cr x -> no_cr (firstn n x).
Proof.
  intros H. rewrite <- (firstn_skipn n x) in H. now apply no_cr_app_l in H.
Qed.

Lemma no_cr_skipn (n : nat) (x : bytes) : no_cr x -> no_cr (skipn n x).
Proof.
  intros H. rewrite <- (firstn_skipn n x) in H. now apply no_cr_app_r in H.
Qed.

Lemma no_cr_slice_to (k : Z) (x : bytes) : no_cr x -> no_cr (slice_to k x).
Proof. unfold slice_to. destruct (k <? 0); apply no_cr_firstn. Qed.

Lemma no_cr_slice_from (k : Z) (x : bytes) : no_cr x -> no_cr (slice_from k x).
Proof. unfold slice_from. destruct (k <? 0); apply no_cr_skipn. Qed.

Lemma nonempty_false (x : bytes) : nonempty x = false -> x = [].
Proof. destruct x; [reflexivity | discriminate]. Qed.

Lemma nonempty_true (x : bytes) : nonempty x = true -> x <> [].
Proof. destruct x; [discriminate | intros _ H; discriminate]. Qed.

(** ** What a check of the child leaves alone *)

(** Unfolding of the monad's operations, and projections of updated
    records. *)
Ltac unmonad :=
  unfold bind, get, modify, ret, raise, out_of_fuel, ask, upd_world,
    try_except in *.

Ltac proj :=
  cbn [self world command cache child child_fd parent_in parent_out
       exit_code exit_signal recover_max recover_attempts
       n_waitpid n_select n_read n_time n_fork n_close n_wselect n_write
       killed closes ingested
       set_cache set_child set_child_fd set_parent_in set_parent_out
       set_exit set_recover_attempts
       tick_waitpid tick_select tick_read tick_time tick_fork tick_close
       tick_wselect tick_write log_kill negb andb] in *.

Ltac run := unmonad; proj.

(** Only the position in the [waitpid] script moved. *)
Definition waited (s s' : Sys) : Prop :=
  self s' = self s /\
  (n_waitpid (world s) <= n_waitpid (world s'))%nat /\
  n_select (world s') = n_select (world s) /\
  n_read (world s') = n_read (world s) /\
  n_time (world s') = n_time (world s) /\
  n_fork (world s') = n_fork (world s) /\
  n_close (world s') = n_close (world s) /\
  killed (world s') = killed (world s) /\
  closes (world s') = closes (world s) /\
  ingested (world s') = ingested (world s).

Lemma waited_refl s : waited s s.
Proof. unfold waited. repeat split; auto. Qed.

Lemma alive_poll_waited os p n s :
  match alive_poll os p n s with
  | Ret _ s' | Raise _ s' => waited s s'
  | OutOfFuel => True
  end.
Proof.
  revert s. induction n as [|n IH]; intros s; cbn [alive_poll]; [exact I|].
  unfold sys_waitpid. run.
  destruct (os_waitpid os (n_waitpid (world s))) as [errno|wpid wstat].
  - unfold waited; proj. repeat split; auto.
  - destruct (wpid =? 0).
    + unfold waited; proj. repeat split; auto.
    + destruct (stopped_or_continued wstat).
      * match goal with |- context [alive_poll os p n ?t] =>
          specialize (IH t); destruct (alive_poll os p n t) end; auto;
          unfold waited in *; proj; intuition lia.
      * unfold waited; proj. repeat split; auto.
Qed.

(** [finalize] with a status given makes no loop and no recovery. *)
Lemma finalize_status_frame os fuel wstat s :
  exists s', finalize os fuel (Some wstat) s = Ret tt s' /\
    child (self s') = None /\
    cache (self s') = cache (self s) /\
    recover_attempts (self s') = recover_attempts (self s) /\
    recover_max (self s') = recover_max (self s) /\
    n_fork (world s') = n_fork (world s) /\
    ingested (world s') = ingested (world s).
Proof.
  unfold finalize, sys_close. run.
  destruct wstat; proj;
    destruct (parent_out (self s)); proj;
    try destruct (os_close os (n_close (world s))); proj;
    eexists; repeat split; reflexivity.
Qed.

(** A check without recovery that finds the child dead: nothing was
    respawned and the counter of recoveries stands. *)
Lemma alive_dead_frame os fuel s s' :
  alive os fuel false s = Ret false s' ->
  child (self s') = None /\
  cache (self s') = cache (self s) /\
  recover_attempts (self s') = recover_attempts (self s) /\
  recover_max (self s') = recover_max (self s) /\
  n_fork (world s') = n_fork (world s) /\
  ingested (world s') = ingested (world s).
Proof.
  unfold alive. destruct fuel as [|n]; cbn [alive_rec]; [discriminate|].
  run. destruct (child (self s)) as [p|] eqn:Hc.
  - pose proof (alive_poll_waited os p (S n) s) as Hw.
    destruct (alive_poll os p (S n) s) as [[wstat|] s1|e s1|]; try discriminate.
    match goal with |- context [finalize os ?f (Some wstat) ?t] =>
      destruct (finalize_status_frame os f wstat t)
        as (s2 & E & H1 & H2 & H3 & H4 & H5 & H6);
      rewrite E end.
    intros H. injection H as <-.
    unfold waited in Hw. proj.
    destruct Hw as (Hs & _ & _ & _ & _ & Hf & _ & _ & _ & Hi).
    rewrite H1, H2, H3, H4, H5, H6, Hs. repeat split; congruence.
  - intros H. injection H as <-. repeat split; auto.
Qed.

(** ** Reading from or writing to a dead child *)

(** When the check [alive (recover=False)] that opens [read] and [write]
    answers [False], both raise [NoSuccess] (the error of a dead child) in
    the state that the check left; the counter of recoveries is the one
    before the call, no fork was made and the controller has no child. *)
Theorem dead_child_raises_without_recovery
    (os : OS) (fuel : nat) (size timeout : Z)
    (data : bytes) (s s' : Sys) :
  alive os fuel false s = Ret false s' ->
  (exists ctx, read os fuel size timeout s = Raise (NoSuccess ProcessIO None ctx) s') /\
  write os fuel data s
    = Raise (NoSuccess DeadWrite None (Some (tail256 (cache (self s'))))) s' /\
  recover_attempts (self s') = recover_attempts (self s) /\
  n_fork (world s') = n_fork (world s) /\
  child (self s') = None.
Proof.
  intros H. destruct (alive_dead_frame os fuel s s' H) as (Hc & _ & Ha & _ & Hf & _).
  repeat split; auto.
  - unfold read. unfold bind at 1. rewrite H. run.
    destruct (nonempty (cache (self s'))); eexists; reflexivity.
  - unfold write. unfold bind at 1. rewrite H. run. reflexivity.
Qed.

Lemma dead_child_raises_without_recovery_witness :
  (exists ctx, read Sample.exited 2 0 0 (Sample.running (bs "$ "))
     = Raise (NoSuccess ProcessIO None ctx)
         {| self := set_parent_out None (set_exit (Some 7) None
                      (set_child None (self (Sample.running (bs "$ ")))));
            world := tick_close 3%positive true (tick_waitpid Sample.world0) |}) /\
  recover_attempts (set_parent_out None (set_exit (Some 7) None
                      (set_child None (self (Sample.running (bs "$ ")))))) = 0%nat.
Proof.
  pose proof (dead_child_raises_without_recovery Sample.exited 2 0 0
                (bs "ls") (Sample.running (bs "$ "))
                {| self := set_parent_out None (set_exit (Some 7) None
                      (set_child None (self (Sample.running (bs "$ ")))));
                   world := tick_close 3%positive true (tick_waitpid Sample.world0) |}
                eq_refl) as (Hr & _ & Ha & _).
  split; [exact Hr | exact Ha].
Defined.

(** C7: the claim fails on a child that is dead and already reaped.  The
    [os.waitpid] of [alive] is not guarded (those of [wait] and [finalize]
    are), so its OSError leaves [read] and [write] as it is, not as
    [NoSuccess]: both raise the bare [OSError] after one [waitpid], and the
    controller still records the child. *)
Theorem reaped_child_raises_bare_oserror
    (os : OS) (fuel : nat) (size timeout : Z) (data : bytes)
    (s : Sys) (p : pid) (errno : Z) :
  child (self s) = Some p ->
  os_waitpid os (n_waitpid (world s)) = WaitErr errno ->
  (0 < fuel)%nat ->
  read os fuel size timeout s
    = Raise (OSError errno) {| self := self s; world := tick_waitpid (world s) |} /\
  write os fuel data s
    = Raise (OSError errno) {| self := self s; world := tick_waitpid (world s) |}.
Proof.
  intros Hc Hw Hf. destruct fuel as [|n]; [lia|].
  assert (alive os (S n) false s
          = Raise (OSError errno)
              {| self := self s; world := tick_waitpid (world s) |}) as Ha.
  { unfold alive. cbn [alive_rec alive_poll]. unfold sys_waitpid. run.
    rewrite Hc. run. rewrite Hw. reflexivity. }
  split.
  - unfold read. unfold bind at 1. rewrite Ha. reflexivity.
  - unfold write. unfold bind at 1. rewrite Ha. reflexivity.
Qed.

Lemma reaped_child_raises_bare_oserror_witness :
  read Sample.reaped 1 0 0 (Sample.running (bs "$ "))
    = Raise (OSError ECHILD)
        {| self := self (Sample.running (bs "$ "));
           world := tick_waitpid Sample.world0 |} /\
  write Sample.reaped 1 (bs "ls") (Sample.running (bs "$ "))
    = Raise (OSError ECHILD)
        {| self := self (Sample.running (bs "$ "));
           world := tick_waitpid Sample.world0 |}.
Proof.
  apply (reaped_child_raises_bare_oserror Sample.reaped 1 0 0 (bs "ls")
           (Sample.running (bs "$ ")) 100%positive ECHILD).
  - reflexivity.
  - reflexivity.
  - lia.
Defined.

(** ** finalize *)

Lemma reap_frame os p n s :
  match reap os p n s with
  | Ret _ s' =>
      parent_out (self s') = parent_out (self s) /\
      cache (self s') = cache (self s) /\
      n_close (world s') = n_close (world s) /\
      closes (world s') = closes (world s)
  | Raise _ _ => False
  | OutOfFuel => True
  end.
Proof.
  revert s. induction n as [|n IH]; intros s; cbn [reap]; [exact I|].
  unfold sys_waitpid. run.
  destruct (os_waitpid os (n_waitpid (world s))) as [errno|wpid wstat]; proj.
  - repeat split; reflexivity.
  - destruct (wpid =? 0).
    + match goal with |- context [reap os p n ?t] =>
        specialize (IH t); destruct (reap os p n t) end; auto.
    + proj. repeat split; reflexivity.
Qed.

Lemma finalize_never_raises os fuel wstat s e s' :
  finalize os fuel wstat s <> Raise e s'.
Proof.
  unfold finalize, sys_close, sys_kill. run.
  destruct wstat as [w|].
  - destruct w; proj; destruct (parent_out (self s)); proj;
      try destruct (os_close os (n_close (world s))); discriminate.
  - destruct (child (self s)) as [p|].
    + match goal with |- context [reap os p fuel ?t] =>
        pose proof (reap_frame os p fuel t) as H;
        destruct (reap os p fuel t) as [w s1| |] end;
        [|contradiction|discriminate].
      destruct w as [[| | |]|]; proj; destruct (parent_out (self s1)); proj;
        try destruct (os_close os (n_close (world s1))); discriminate.
    + proj. destruct (parent_out (self s)); proj;
        try destruct (os_close os (n_close (world s))); discriminate.
Qed.

(** Nothing is left to do on a controller without child and without
    descriptor: no system call, no change. *)
Lemma finalize_finalized os fuel s :
  child (self s) = None -> parent_out (self s) = None ->
  finalize os fuel None s = Ret tt s.
Proof.
  destruct s as [[cmd c ch cfd pin pout ec es rm ra] w]. proj.
  intros -> ->. reflexivity.
Qed.

(** C9 (amended): [finalize] never raises.  When the master descriptor is
    open and its [os.close] succeeds, a [finalize ()] that returns leaves
    the controller without child and without descriptor, has made exactly
    one [os.close], of that descriptor, and keeps the cache; a second
    [finalize ()] then returns with the controller and the system
    untouched. *)
Theorem finalize_idempotent_once_closed
    (os : OS) (fuel : nat) (s s1 : Sys) (f : fd) :
  parent_out (self s) = Some f ->
  os_close os (n_close (world s)) = true ->
  finalize os fuel None s = Ret tt s1 ->
  (forall e s', finalize os fuel None s <> Raise e s') /\
  child (self s1) = None /\
  parent_out (self s1) = None /\
  cache (self s1) = cache (self s) /\
  closes (world s1) = closes (world s) ++ [(f, true)] /\
  finalize os fuel None s1 = Ret tt s1.
Proof.
  intros Hp Hc H.
  split; [intros e s'; apply finalize_never_raises|].
  assert (child (self s1) = None /\ parent_out (self s1) = None /\
          cache (self s1) = cache (self s) /\
          closes (world s1) = closes (world s) ++ [(f, true)]) as G.
  { revert H. unfold finalize, sys_close, sys_kill. run.
    destruct (child (self s)) as [p|].
    - match goal with |- context [reap os p fuel ?t] =>
        pose proof (reap_frame os p fuel t) as F;
        destruct (reap os p fuel t) as [w t1| |] end;
        [|contradiction|discriminate].
      proj. destruct F as (F1 & F2 & F3 & F4).
      destruct w as [[| | |]|]; proj; rewrite F1, Hp; proj;
        rewrite F3, Hc; proj; intros H; injection H as <-; proj;
        rewrite F2, F4; repeat split; reflexivity.
    - proj. rewrite Hp. proj. rewrite Hc. proj.
      intros H; injection H as <-; proj. repeat split; reflexivity. }
  destruct G as (G1 & G2 & G3 & G4). repeat split; auto.
  now apply finalize_finalized.
Qed.

Lemma finalize_idempotent_once_closed_witness :
  exists s1,
    finalize (Sample.hangup false) 1 None
      {| self := self (Sample.running (bs "bye")); world := tick_waitpid Sample.world0 |}
      = Ret tt s1 /\
    child (self s1) = None /\
    closes (world s1) = [(3%positive, true)] /\
    finalize (Sample.hangup false) 1 None s1 = Ret tt s1.
Proof.
  eexists.
  destruct (finalize_idempotent_once_closed (Sample.hangup false) 1
              {| self := self (Sample.running (bs "bye"));
                 world := tick_waitpid Sample.world0 |} _ 3%positive
              eq_refl eq_refl eq_refl) as (_ & H1 & _ & _ & H2 & H3).
  split; [reflexivity|]. split; [exact H1|]. split; [exact H2|exact H3].
Defined.

(** C9, as stated, fails: when the first [os.close] raises OSError the
    descriptor stays recorded, and the second [finalize ()] closes again and
    changes the controller. *)
Lemma finalize_twice_with_failing_close :
  exists s1 s2,
    finalize Sample.close_fails_once 1 None (Sample.running []) = Ret tt s1 /\
    finalize Sample.close_fails_once 1 None s1 = Ret tt s2 /\
    parent_out (self s1) = Some 3%positive /\
    parent_out (self s2) = None /\
    self s2 <> self s1 /\
    closes (world s2) = [(3%positive, false); (3%positive, true)].
Proof.
  do 2 eexists. split; [reflexivity|]. split; [reflexivity|].
  split; [reflexivity|]. split; [reflexivity|].
  split; [intros H; discriminate H | reflexivity].
Qed.

Lemma finalize_clears_child os fuel wstat s s' :
  finalize os fuel wstat s = Ret tt s' -> child (self s') = None.
Proof.
  unfold finalize, sys_close, sys_kill. run.
  destruct wstat as [w|].
  - destruct w; proj; destruct (parent_out (self s)); proj;
      try destruct (os_close os (n_close (world s)));
      intros H; injection H as <-; reflexivity.
  - destruct (child (self s)) as [p|].
    + match goal with |- context [reap os p fuel ?t] =>
        destruct (reap os p fuel t) as [w s1| |] end; try discriminate.
      destruct w as [[| | |]|]; proj; destruct (parent_out (self s1)); proj;
        try destruct (os_close os (n_close (world s1)));
        intros H; injection H as <-; reflexivity.
    + proj. destruct (parent_out (self s)); proj;
        try destruct (os_close os (n_close (world s)));
        intros H; injection H as <-; reflexivity.
Qed.

(** ** One poll *)


Lemma take_cached_empty size s :
  cache (self s) = [] -> take_cached size s = Ret None s.
Proof. unfold take_cached. run. intros ->. reflexivity. Qed.

Lemma poll_timeout os fuel s f :
  parent_out (self s) = Some f ->
  os_select os (n_select (world s)) = SelTimeout ->
  poll os fuel s = Ret tt {| self := self s; world := tick_select (world s) |}.
Proof.
  intros Hp Hs. unfold poll, sys_select. run. rewrite Hp. run. rewrite Hs.
  reflexivity.
Qed.

Lemma poll_data os fuel s f buf :
  parent_out (self s) = Some f ->
  os_select os (n_select (world s)) = SelReady ->
  os_read os (n_read (world s)) = ReadOk buf ->
  (length buf =? 0)%nat && darwin os = false ->
  poll os fuel s
  = Ret tt {| self := set_cache (cache (self s) ++ strip_cr buf) (self s);
              world := tick_read [buf] (tick_select (world s)) |}.
Proof.
  intros Hp Hs Hr Hd. unfold poll, sys_select, sys_read. run.
  rewrite Hp. run. rewrite Hs. run. rewrite Hr. run. rewrite Hd. reflexivity.
Qed.


Lemma alive_true_waited os fuel s s1 :
  alive os fuel false s = Ret true s1 -> waited s s1.
Proof.
  unfold alive. destruct fuel as [|n]; cbn [alive_rec]; [discriminate|].
  run. destruct (child (self s)) as [p|].
  - pose proof (alive_poll_waited os p (S n) s) as Hw.
    destruct (alive_poll os p (S n) s) as [[wstat|] t|e t|]; try discriminate.
    + match goal with |- context [finalize os ?f (Some wstat) ?u] =>
        destruct (finalize_status_frame os f wstat u) as (s2 & E & _);
        rewrite E end.
      discriminate.
    + intros H; injection H as <-. exact Hw.
  - discriminate.
Qed.

Lemma alive_running os n recover s p w :
  child (self s) = Some p ->
  os_waitpid os (n_waitpid (world s)) = WaitOk 0 w ->
  alive os (S n) recover s
  = Ret true {| self := self s; world := tick_waitpid (world s) |}.
Proof.
  intros Hc Hw. unfold alive. cbn [alive_rec alive_poll].
  unfold sys_waitpid. run. rewrite Hc. run. rewrite Hw. reflexivity.
Qed.

(** ** A zero-length read *)








(** ** read (size=0, timeout=0) *)







(** ** What a read of size 0 returns *)

(** Two controllers that differ at most in their caches. *)
Definition same_but_cache (p q : PTYProcess) : Prop :=
  set_cache [] p = set_cache [] q.

Lemma same_but_cache_refl p : same_but_cache p p.
Proof. reflexivity. Qed.

Lemma same_but_cache_trans p q r :
  same_but_cache p q -> same_but_cache q r -> same_but_cache p r.
Proof. unfold same_but_cache. congruence. Qed.

Lemma same_but_cache_set c p : same_but_cache (set_cache c p) p.
Proof. reflexivity. Qed.

Lemma poll_ret os fuel s s' :
  poll os fuel s = Ret tt s' ->
  exists new,
    ingested (world s') = ingested (world s) ++ new /\
    cache (self s') = cache (self s) ++ strip_cr (concat new) /\
    same_but_cache (self s') (self s).
Proof.
  unfold poll, sys_select, sys_read. run.
  destruct (parent_out (self s)) as [f|]; [|discriminate]. run.
  destruct (os_select os (n_select (world s))); run; try discriminate.
  - intros H; injection H as <-. exists []. proj.
    rewrite !app_nil_r. repeat split.
  - destruct (os_read os (n_read (world s))) as [buf|errno]; run; [|discriminate].
    destruct ((Datatypes.length buf =? 0)%nat && darwin os).
    + match goal with |- context [finalize os fuel None ?t] =>
        destruct (finalize os fuel None t) end; discriminate.
    + intros H; injection H as <-. exists [buf]. proj.
      cbn [concat]. rewrite app_nil_r. repeat split.
Qed.

Lemma take_cached_0 s :
  take_cached 0 s
  = if nonempty (cache (self s))
    then Ret (Some (cache (self s)))
           {| self := set_cache [] (self s); world := world s |}
    else Ret None s.
Proof.
  unfold take_cached. run. destruct (nonempty (cache (self s))); reflexivity.
Qed.

Lemma read_loop_0_ret os fuel timeout start n : forall s r s',
  read_loop os fuel 0 timeout start n s = Ret r s' ->
  exists new,
    ingested (world s') = ingested (world s) ++ new /\
    r = cache (self s) ++ strip_cr (concat new) /\
    cache (self s') = [] /\
    same_but_cache (self s') (self s).
Proof.
  induction n as [|n IH]; intros s r s'; cbn [read_loop]; [discriminate|].
  unfold bind at 1. rewrite take_cached_0.
  destruct (nonempty (cache (self s))) eqn:Hne.
  { intros H; injection H as <- <-. exists []. proj.
    rewrite !app_nil_r. repeat split. }
  apply nonempty_false in Hne.
  unfold bind at 1.
  destruct (poll os fuel s) as [[] s1|e s1|] eqn:Hpoll; try discriminate.
  destruct (poll_ret os fuel s s1 Hpoll) as (new & P1 & P2 & P3).
  unfold bind at 1. rewrite take_cached_0.
  destruct (nonempty (cache (self s1))) eqn:Hne1.
  { intros H; injection H as <- <-. exists new. proj.
    rewrite P2. repeat split; auto. }
  apply nonempty_false in Hne1.
  assert (strip_cr (concat new) = []) as Hnew.
  { rewrite Hne, Hne1 in P2. cbn [app] in P2. auto. }
  assert (forall r s',
            drain_cache s1 = Ret r s' ->
            exists new0,
              ingested (world s') = ingested (world s) ++ new0 /\
              r = cache (self s) ++ strip_cr (concat new0) /\
              cache (self s') = [] /\ same_but_cache (self s') (self s)) as Hdrain.
  { unfold drain_cache. run. intros r0 s0 H; injection H as <- <-.
    exists new. proj. rewrite Hne1, Hne, Hnew. repeat split; auto. }
  assert (forall r s',
            read_loop os fuel 0 timeout start n s1 = Ret r s' ->
            exists new0,
              ingested (world s') = ingested (world s) ++ new0 /\
              r = cache (self s) ++ strip_cr (concat new0) /\
              cache (self s') = [] /\ same_but_cache (self s') (self s)) as Hrec.
  { intros r0 s0 H. destruct (IH s1 r0 s0 H) as (new' & Q1 & Q2 & Q3 & Q4).
    exists (new ++ new'). rewrite Q1, P1, app_assoc.
    rewrite concat_app, strip_cr_app, Hnew, Hne. rewrite Hne1 in Q2.
    repeat split; auto. eapply same_but_cache_trans; eauto. }
  destruct (timeout =? 0).
  { unfold bind at 1. unfold get at 1. rewrite Hne1. cbn [nonempty]. apply Hrec. }
  destruct (timeout <? 0); [apply Hdrain|].
  unfold bind at 1, sys_time. run.
  destruct (os_time os (n_time (world s1)) - start >? timeout).
  - intros H. injection H as <- <-. exists new. proj.
    rewrite Hne1, Hne, Hnew. repeat split; auto.
  - intros H. apply IH in H. proj.
    destruct H as (new' & Q1 & Q2 & Q3 & Q4).
    exists (new ++ new'). rewrite Q1, P1, app_assoc.
    rewrite concat_app, strip_cr_app, Hnew, Hne. rewrite Hne1 in Q2.
    repeat split; auto. eapply same_but_cache_trans; eauto.
Qed.

Lemma read_0_ret os fuel timeout s r s' :
  read os fuel 0 timeout s = Ret r s' ->
  exists new,
    ingested (world s') = ingested (world s) ++ new /\
    r = cache (self s) ++ strip_cr (concat new) /\
    cache (self s') = [] /\
    same_but_cache (self s') (self s).
Proof.
  unfold read. unfold bind at 1.
  destruct (alive os fuel false s) as [[|] s1|e s1|] eqn:Ha; try discriminate.
  - destruct (alive_true_waited os fuel s s1 Ha)
      as (W1 & _ & _ & _ & _ & _ & _ & _ & _ & W2).
    cbn [negb]. unfold try_except, sys_time. run.
    match goal with |- context [read_loop os fuel 0 timeout ?st fuel ?t] =>
      destruct (read_loop os fuel 0 timeout st fuel t) as [r1 t1|e t1|] eqn:E
    end; try discriminate.
    + intros H; injection H as <- <-.
      apply read_loop_0_ret in E. proj. rewrite W1, W2 in E. exact E.
    + unfold read_handler. destruct e; run; try discriminate.
      destruct at_; discriminate.
  - cbn [negb]. run. destruct (nonempty (cache (self s1))); discriminate.
Qed.

(** ** What find returns *)

Lemma parsing_ret {A} data (m : M A) s r s' :
  parsing data m s = Ret r s' <-> m s = Ret r s'.
Proof.
  unfold parsing, try_except, raise. destruct (m s); split; congruence.
Qed.

(** The result [r] of [find] and the cache [c] that it leaves, for the
    data [acc] gathered by the call. *)
Definition find_post {RE : RegexEngine} (patts : list regex) (timeout : Z)
    (acc : bytes) (r : option nat * option bytes) (c : bytes) : Prop :=
  match r with
  | (Some i, Some out) =>
      exists e, first_match patts 0 acc = Some (i, e) /\
                out = strip_cr (firstn e acc) /\
                c = skipn e acc
  | (None, None) =>
      first_match patts 0 acc = None /\
      ((timeout = 0 /\ c = []) \/ (0 < timeout /\ c = acc))
  | _ => False
  end.

Lemma find_loop_ret os {RE : RegexEngine} fuel patts timeout start n :
  forall data s r s',
  cache (self s) = [] ->
  find_loop os fuel patts timeout start data n s = Ret r s' ->
  exists new,
    ingested (world s') = ingested (world s) ++ new /\
    same_but_cache (self s') (self s) /\
    find_post patts timeout (data ++ strip_cr (concat new)) r (cache (self s')).
Proof.
  induction n as [|n IH]; intros data s r s' Hc; cbn [find_loop]; [discriminate|].
  destruct (first_match patts 0 data) as [[i e]|] eqn:Hm.
  { run. intros H; injection H as <- <-. exists []. proj.
    rewrite !app_nil_r. repeat split. exists e. auto. }
  destruct (timeout =? 0) eqn:Ht0.
  { run. intros H; injection H as <- <-. exists []. proj.
    rewrite !app_nil_r. repeat split; auto.
    left. split; [now apply Z.eqb_eq | exact Hc]. }
  assert (forall t,
            ingested (world t) = ingested (world s) ->
            self t = self s ->
            bind (parsing data (read os fuel 0 _POLLDELAY))
              (fun more => find_loop os fuel patts timeout start (data ++ more) n) t
            = Ret r s' ->
            exists new,
              ingested (world s') = ingested (world s) ++ new /\
              same_but_cache (self s') (self s) /\
              find_post patts timeout (data ++ strip_cr (concat new)) r
                (cache (self s'))) as Hrec.
  { intros t T1 T2. unfold bind at 1.
    destruct (parsing data (read os fuel 0 _POLLDELAY) t) as [more t1|e t1|] eqn:E;
      try discriminate.
    apply (proj1 (parsing_ret _ _ _ _ _)) in E. apply read_0_ret in E.
    destruct E as (new & Q1 & Q2 & Q3 & Q4).
    intros H. apply IH in H; [|exact Q3].
    destruct H as (new' & R1 & R2 & R3).
    exists (new ++ new'). rewrite R1, Q1, T1, app_assoc.
    split; [reflexivity|]. split.
    { rewrite <- T2. eapply same_but_cache_trans; eauto. }
    rewrite concat_app, strip_cr_app, app_assoc.
    rewrite Q2, T2, Hc in R3. cbn [app] in R3. exact R3. }
  destruct (timeout >? 0) eqn:Htp.
  - unfold bind at 1, sys_time. run.
    destruct (os_time os (n_time (world s)) - start >? timeout).
    + intros H; injection H as <- <-. exists []. proj.
      rewrite !app_nil_r. repeat split; auto.
      right. split; [|reflexivity]. apply Z.gtb_lt in Htp. lia.
    + apply Hrec; reflexivity.
  - unfold bind at 1. unfold ret at 1. apply Hrec; reflexivity.
Qed.

Lemma first_data_ret os fuel s d s' :
  first_data os fuel s = Ret d s' ->
  exists new,
    ingested (world s') = ingested (world s) ++ new /\
    d = cache (self s) ++ strip_cr (concat new) /\
    cache (self s') = [] /\
    same_but_cache (self s') (self s).
Proof.
  unfold first_data, drain_cache. run.
  destruct (nonempty (cache (self s))) eqn:Hne.
  - intros H; injection H as <- <-. exists []. proj.
    rewrite !app_nil_r. repeat split.
  - intros H. apply (proj1 (parsing_ret _ _ _ _ _)) in H.
    apply read_0_ret in H. proj.
    destruct H as (new & Q1 & Q2 & Q3 & Q4).
    exists new. apply nonempty_false in Hne. rewrite Hne. auto.
Qed.

Lemma find_ret os {RE : RegexEngine} fuel patterns timeout s r s' :
  find os fuel patterns timeout s = Ret r s' ->
  exists patts new,
    compile_all patterns = Some patts /\
    ingested (world s') = ingested (world s) ++ new /\
    same_but_cache (self s') (self s) /\
    find_post patts timeout (cache (self s) ++ strip_cr (concat new)) r
      (cache (self s')).
Proof.
  unfold find. unfold bind at 1, sys_time. run.
  match goal with |- context [first_data os fuel ?t] =>
    destruct (first_data os fuel t) as [d s1|e s1|] eqn:E end; try discriminate.
  apply first_data_ret in E. proj. destruct E as (new & Q1 & Q2 & Q3 & Q4).
  destruct (compile_all patterns) as [patts|].
  2:{ unfold parsing. run. discriminate. }
  intros H. apply find_loop_ret in H; [|exact Q3].
  destruct H as (new' & R1 & R2 & R3).
  exists patts, (new ++ new'). split; [reflexivity|].
  rewrite R1, Q1, app_assoc. split; [reflexivity|].
  split; [eapply same_but_cache_trans; eauto|].
  rewrite concat_app, strip_cr_app, app_assoc, <- Q2. exact R3.
Qed.

(** The pattern found by [first_match] matches, and none before it does. *)
Lemma first_match_first {RE : RegexEngine} (patts : list regex) (data : bytes) :
  forall k i e,
  first_match patts k data = Some (i, e) ->
  exists j r st,
    i = (k + j)%nat /\
    nth_error patts j = Some r /\
    re_search r data = Some (st, e) /\
    forall j' r', (j' < j)%nat -> nth_error patts j' = Some r' ->
                  re_search r' data = None.
Proof.
  induction patts as [|p ps IH]; intros k i e; cbn [first_match]; [discriminate|].
  destruct (re_search p data) as [[st e']|] eqn:E.
  - intros H; injection H as <- <-. exists 0%nat, p, st.
    repeat split; auto. intros j' r' Hj. lia.
  - intros H. apply IH in H. destruct H as (j & r & st & H1 & H2 & H3 & H4).
    exists (S j), r, st. repeat split; auto; [lia|].
    intros [|j'] r' Hj Hn.
    + cbn in Hn. injection Hn as <-. exact E.
    + cbn in Hn. apply (H4 j'); [lia | exact Hn].
Qed.

Lemma first_match_none {RE : RegexEngine} (patts : list regex) (data : bytes) :
  forall k,
  first_match patts k data = None <->
  forall r, In r patts -> re_search r data = None.
Proof.
  induction patts as [|p ps IH]; intros k; cbn [first_match].
  - split; [intros _ r []|reflexivity].
  - destruct (re_search p data) as [[st e']|] eqn:E.
    + split; [discriminate|]. intros H. rewrite (H p) in E; [discriminate|now left].
    + rewrite IH. split.
      * intros H r [<-|Hr]; auto.
      * intros H r Hr. apply H. now right.
Qed.

Lemma first_match_intro {RE : RegexEngine} (data : bytes) :
  forall patts k i r st e,
  nth_error patts i = Some r ->
  re_search r data = Some (st, e) ->
  (forall j r', (j < i)%nat -> nth_error patts j = Some r' ->
                re_search r' data = None) ->
  first_match patts k data = Some ((k + i)%nat, e).
Proof.
  induction patts as [|p ps IH]; intros k i r st e Hn Hs Hb.
  - destruct i; discriminate.
  - cbn [first_match]. destruct i as [|i].
    + cbn in Hn. injection Hn as ->. rewrite Hs, Nat.add_0_r. reflexivity.
    + rewrite (Hb 0%nat p) by (auto; lia).
      rewrite (IH (S k) i r st e); auto.
      * f_equal. f_equal. lia.
      * intros j r' Hj Hn'. apply (Hb (S j) r'); [lia | exact Hn'].
Qed.

(** C2: a [find] that returns the index [i] of a pattern has gathered the
    data [acc], made of the cache at entry followed by the chunks read
    during the call without their carriage returns; pattern [i] matches
    [acc] with a match ending at [e]; the bytes returned are the first [e]
    bytes of [acc] with the carriage returns removed (there are none to
    remove when the cache had none at entry), and the cache holds the
    bytes of [acc] from position [e] on. *)
Theorem find_match_splits_data
    (os : OS) (RE : RegexEngine) (fuel : nat) (patterns : list bytes)
    (timeout : Z) (s s' : Sys) (i : nat) (o : option bytes) :
  find os fuel patterns timeout s = Ret (Some i, o) s' ->
  exists patts new r st e,
    compile_all patterns = Some patts /\
    ingested (world s') = ingested (world s) ++ new /\
    nth_error patts i = Some r /\
    re_search r (cache (self s) ++ strip_cr (concat new)) = Some (st, e) /\
    o = Some (strip_cr (firstn e (cache (self s) ++ strip_cr (concat new)))) /\
    (no_cr (cache (self s)) ->
     o = Some (firstn e (cache (self s) ++ strip_cr (concat new)))) /\
    cache (self s') = skipn e (cache (self s) ++ strip_cr (concat new)).
Proof.
  intros H. apply find_ret in H.
  destruct H as (patts & new & Hc & Hi & _ & Hp).
  unfold find_post in Hp. destruct o as [out|]; [|contradiction].
  destruct Hp as (e & Hm & Ho & Hcache).
  destruct (first_match_first patts _ 0 i e Hm) as (j & r & st & -> & Hn & Hs & _).
  exists patts, new, r, st, e. repeat split; auto.
  - now rewrite Ho.
  - intros Hno. rewrite Ho. f_equal. apply strip_cr_id, no_cr_firstn.
    apply no_cr_app; [exact Hno | apply no_cr_strip_cr].
Qed.

Lemma find_match_splits_data_witness :
  exists patts new r st e,
    compile_all (RE := literal) [bs "#"; bs ">"] = Some patts /\
    ingested (world Sample.prompted) = [] ++ new /\
    nth_error patts 1 = Some r /\
    re_search r ([] ++ strip_cr (concat new)) = Some (st, e) /\
    Some (bs "ok>") = Some (strip_cr (firstn e ([] ++ strip_cr (concat new)))) /\
    (no_cr [] -> Some (bs "ok>") = Some (firstn e ([] ++ strip_cr (concat new)))) /\
    cache (self Sample.prompted) = skipn e ([] ++ strip_cr (concat new)).
Proof.
  exact (find_match_splits_data Sample.talking literal 5 [bs "#"; bs ">"] 50
           (Sample.running []) Sample.prompted 1 (Some (bs "ok>")) eq_refl).
Defined.

(** ** The order of the patterns *)

(** C3: in a pass over the data [data], [find] returns with the first
    pattern of the list whose search succeeds: when pattern [i] matches
    with a match ending at [e] and no pattern listed before it matches, the
    pass returns [i] with the first [e] bytes and caches the rest.  In
    particular, on the buffer ["ab"] with the patterns ["b"] and ["a"] the
    call returns [(0, "ab")]. *)
Theorem find_first_listed_pattern_wins
    (os : OS) (RE : RegexEngine) (fuel n : nat) (patts : list regex)
    (timeout start : Z) (data : bytes) (s : Sys)
    (i : nat) (r : regex) (st e : nat) :
  nth_error patts i = Some r ->
  re_search r data = Some (st, e) ->
  (forall j r', (j < i)%nat -> nth_error patts j = Some r' ->
                re_search r' data = None) ->
  find_loop os fuel patts timeout start data (S n) s
  = Ret (Some i, Some (strip_cr (firstn e data)))
      {| self := set_cache (skipn e data) (self s); world := world s |} /\
  find (RE := literal) os (S fuel) [bs "b"; bs "a"] timeout
    {| self := set_cache (bs "ab") (self s); world := world s |}
  = Ret (Some 0%nat, Some (bs "ab"))
      {| self := set_cache [] (self s); world := tick_time (world s) |}.
Proof.
  intros Hn Hs Hb. split.
  - cbn [find_loop].
    rewrite (first_match_intro data patts 0 i r st e Hn Hs Hb).
    reflexivity.
  - reflexivity.
Qed.

Lemma find_first_listed_pattern_wins_witness :
  find_loop (RE := literal) Sample.silent 1 [bs "b"; bs "a"] 1000 0 (bs "ab") 1
    (Sample.running [])
  = Ret (Some 0%nat, Some (bs "ab")) (Sample.running []) /\
  find (RE := literal) Sample.silent 2 [bs "b"; bs "a"] 1000 (Sample.running (bs "ab"))
  = Ret (Some 0%nat, Some (bs "ab"))
      {| self := self (Sample.running []); world := tick_time Sample.world0 |}.
Proof.
  apply (find_first_listed_pattern_wins Sample.silent literal 1 0
           [bs "b"; bs "a"] 1000 0 (bs "ab") (Sample.running [])
           0 (bs "b") 1 2).
  - reflexivity.
  - reflexivity.
  - intros j r' Hj. lia.
Defined.

(** ** find (timeout=0) without a match *)

(** C10: when the patterns compile and none matches the first data of
    [find (timeout=0)] (the cache at entry, or the result of one read when
    the cache is empty), the call returns [(None, None)] and leaves the
    cache empty: the data, that is the cache at entry followed by the bytes
    read, is neither returned nor put back. *)
Theorem find_timeout_0_discards
    (os : OS) (RE : RegexEngine) (fuel : nat) (patterns : list bytes)
    (patts : list regex) (s s1 : Sys) (data : bytes) :
  compile_all patterns = Some patts ->
  first_data os (S fuel) {| self := self s; world := tick_time (world s) |}
    = Ret data s1 ->
  (forall r, In r patts -> re_search r data = None) ->
  find os (S fuel) patterns 0 s = Ret (None, None) s1 /\
  cache (self s1) = [] /\
  exists new,
    ingested (world s1) = ingested (world s) ++ new /\
    data = cache (self s) ++ strip_cr (concat new).
Proof.
  intros Hc Hd Hm. split; [|split].
  - unfold find. unfold bind at 1, sys_time. run. rewrite Hd, Hc.
    cbn [find_loop]. rewrite (proj2 (first_match_none patts data 0) Hm).
    reflexivity.
  - apply first_data_ret in Hd. destruct Hd as (new & _ & _ & H3 & _). exact H3.
  - apply first_data_ret in Hd. proj. destruct Hd as (new & H1 & H2 & _).
    exists new. auto.
Qed.

Lemma find_timeout_0_discards_witness :
  find (RE := literal) Sample.silent 1 [bs "#"; bs ">"] 0 (Sample.running (bs "ok"))
  = Ret (None, None)
      {| self := self (Sample.running []); world := tick_time Sample.world0 |} /\
  cache (self (Sample.running [])) = [].
Proof.
  destruct (find_timeout_0_discards Sample.silent literal 0 [bs "#"; bs ">"]
              [bs "#"; bs ">"] (Sample.running (bs "ok"))
              {| self := self (Sample.running []); world := tick_time Sample.world0 |}
              (bs "ok") eq_refl eq_refl) as (H1 & H2 & _).
  - intros r [<-|[<-|[]]]; reflexivity.
  - split; [exact H1 | exact H2].
Defined.

(** * Invariants of the controller *)

(** ** A small program logic *)

Definition post {A} (Q : A -> Sys -> Prop) (E : Sys -> Prop) (o : outcome A) : Prop :=
  match o with
  | Ret a s => Q a s
  | Raise _ s => E s
  | OutOfFuel => True
  end.

(** From a state in [P], [m] returns in [Q] and raises in [E]. *)
Definition hoare {A} (P : Sys -> Prop) (m : M A) (Q : A -> Sys -> Prop)
    (E : Sys -> Prop) : Prop :=
  forall s, P s -> post Q E (m s).

(** [m] keeps [I], whether it returns or raises. *)
Definition inv {A} (I : Sys -> Prop) (m : M A) : Prop :=
  hoare I m (fun _ => I) I.

Lemma hoare_bind {A B} P (m : M A) (f : A -> M B) Q' Q E :
  hoare P m Q' E -> (forall a, hoare (Q' a) (f a) Q E) -> hoare P (bind m f) Q E.
Proof.
  intros Hm Hf s Hs. unfold bind. specialize (Hm s Hs).
  destruct (m s) as [a t|e t|]; cbn [post] in *; auto. now apply Hf.
Qed.

Lemma hoare_conseq {A} (P P' : Sys -> Prop) (m : M A) (Q Q' : A -> Sys -> Prop) E :
  hoare P m Q E -> (forall s, P' s -> P s) -> (forall a s, Q a s -> Q' a s) ->
  hoare P' m Q' E.
Proof.
  intros Hm HP HQ s Hs. specialize (Hm s (HP s Hs)).
  destruct (m s); cbn [post] in *; auto.
Qed.

Lemma hoare_ret {A} (P : Sys -> Prop) (a : A) (Q : A -> Sys -> Prop) E :
  (forall s, P s -> Q a s) -> hoare P (ret a) Q E.
Proof. intros H s Hs. now apply H. Qed.

Lemma hoare_raise {A} (P : Sys -> Prop) e (Q : A -> Sys -> Prop) (E : Sys -> Prop) :
  (forall s, P s -> E s) -> hoare P (raise e) Q E.
Proof. intros H s Hs. now apply H. Qed.

Lemma hoare_out_of_fuel {A} P (Q : A -> Sys -> Prop) E : hoare P out_of_fuel Q E.
Proof. intros s _. exact I. Qed.

Lemma hoare_get {A} (P : Sys -> Prop) (f : PTYProcess -> A) E :
  hoare P (get f) (fun a s => P s /\ a = f (self s)) E.
Proof. intros s Hs. cbn. auto. Qed.

Lemma hoare_ask {A} (P : Sys -> Prop) (f : World -> A) E :
  hoare P (ask f) (fun _ s => P s) E.
Proof. intros s Hs. cbn. auto. Qed.

Lemma hoare_try {A} P (m : M A) h Q E E' :
  hoare P m Q E' -> (forall e, hoare E' (h e) Q E) -> hoare P (try_except m h) Q E.
Proof.
  intros Hm Hh s Hs. unfold try_except. specialize (Hm s Hs).
  destruct (m s) as [a t|e t|]; cbn [post] in *; auto. now apply Hh.
Qed.

Lemma inv_bind {A B} I (m : M A) (f : A -> M B) :
  inv I m -> (forall a, inv I (f a)) -> inv I (bind m f).
Proof. intros Hm Hf. eapply hoare_bind; [exact Hm | exact Hf]. Qed.

Lemma hoare_bind_inv {A B} I (m : M A) (f : A -> M B) Q :
  inv I m -> (forall a, hoare I (f a) Q I) -> hoare I (bind m f) Q I.
Proof. intros Hm Hf. eapply hoare_bind; [exact Hm | exact Hf]. Qed.

Lemma inv_result {A} I (m : M A) (Q : A -> Sys -> Prop) :
  hoare I m (fun a s => I s /\ Q a s) I -> inv I m.
Proof. intros H. eapply hoare_conseq; [exact H | auto | cbn; tauto]. Qed.

(** ** Operations that touch neither cache nor recovery *)

(** What the invariants below look at. *)
Definition same_view (s t : Sys) : Prop :=
  cache (self t) = cache (self s) /\
  recover_attempts (self t) = recover_attempts (self s) /\
  recover_max (self t) = recover_max (self s) /\
  n_fork (world t) = n_fork (world s).

Section Frame.

Variable os : OS.
Variable I : Sys -> Prop.
Hypothesis I_view : forall s t, same_view s t -> I s -> I t.

Lemma inv_modify f :
  (forall p, cache (f p) = cache p /\
             recover_attempts (f p) = recover_attempts p /\
             recover_max (f p) = recover_max p) ->
  inv I (modify f).
Proof.
  intros Hf s Hs. cbn. apply (I_view s); [|exact Hs].
  destruct (Hf (self s)) as (H1 & H2 & H3). repeat split; auto.
Qed.

Lemma inv_upd_world f :
  (forall w, n_fork (f w) = n_fork w) -> inv I (upd_world f).
Proof.
  intros Hf s Hs. cbn. apply (I_view s); [|exact Hs]. repeat split; auto. apply Hf.
Qed.

Lemma inv_ret {A} (a : A) : inv I (ret a).
Proof. now apply hoare_ret. Qed.

Lemma inv_raise {A} e : inv I (@raise A e).
Proof. now apply hoare_raise. Qed.

Lemma inv_get {A B} (f : PTYProcess -> A) (k : A -> M B) :
  (forall a, inv I (k a)) -> inv I (bind (get f) k).
Proof. intros H s Hs. unfold bind, get. now apply H. Qed.

Lemma inv_ask {A B} (f : World -> A) (k : A -> M B) :
  (forall a, inv I (k a)) -> inv I (bind (ask f) k).
Proof. intros H s Hs. unfold bind, ask. now apply H. Qed.

Lemma inv_try {A} (m : M A) h :
  inv I m -> (forall e, inv I (h e)) -> inv I (try_except m h).
Proof. intros Hm Hh. eapply hoare_try; [exact Hm | exact Hh]. Qed.

(** One step of a proof that a piece of code keeps [I]. *)
Ltac frame_step :=
  match goal with
  | |- inv _ (bind (get _) _) => apply inv_get; intros
  | |- inv _ (bind (ask _) _) => apply inv_ask; intros
  | |- inv _ (bind _ _) => apply inv_bind; [|intros]
  | |- inv _ (ret _) => apply inv_ret
  | |- inv _ (raise _) => apply inv_raise
  | |- inv _ out_of_fuel => apply hoare_out_of_fuel
  | |- inv _ (modify _) => apply inv_modify; intros; repeat split; reflexivity
  | |- inv _ (upd_world _) => apply inv_upd_world; intros; reflexivity
  | |- inv _ (try_except _ _) => apply inv_try; [|intros]
  | |- inv _ (match ?x with _ => _ end) => destruct x
  end.

Ltac frame := repeat frame_step; auto.

Lemma inv_sys_waitpid : inv I (sys_waitpid os).
Proof. unfold sys_waitpid. frame. Qed.

Lemma inv_sys_kill p : inv I (sys_kill p).
Proof. unfold sys_kill. frame. Qed.

Lemma inv_sys_time : inv I (sys_time os).
Proof. unfold sys_time. frame. Qed.

Lemma inv_sys_close f : inv I (sys_close os f).
Proof. unfold sys_close. frame. Qed.

Lemma inv_sys_select f : inv I (sys_select os f).
Proof. unfold sys_select. frame. Qed.

Lemma inv_sys_read f : inv I (sys_read os f).
Proof. unfold sys_read. frame. Qed.

Lemma inv_sys_wselect f : inv I (sys_wselect os f).
Proof. unfold sys_wselect. frame. Qed.

Lemma inv_sys_write f data : inv I (sys_write os f data).
Proof. unfold sys_write. frame. Qed.

Hint Resolve inv_sys_waitpid inv_sys_kill inv_sys_time inv_sys_close
  inv_sys_select inv_sys_read inv_sys_wselect inv_sys_write : core.

Lemma inv_reap p n : inv I (reap os p n).
Proof. induction n as [|n IH]; cbn [reap]; frame. Qed.

Hint Resolve inv_reap : core.

Lemma inv_finalize fuel wstat : inv I (finalize os fuel wstat).
Proof. unfold finalize. frame. Qed.

Hint Resolve inv_finalize : core.

Lemma inv_alive_poll p n : inv I (alive_poll os p n).
Proof. induction n as [|n IH]; cbn [alive_poll]; frame. Qed.

Hint Resolve inv_alive_poll : core.

Lemma inv_alive_no_recovery fuel : inv I (alive os fuel false).
Proof. unfold alive. destruct fuel; cbn [alive_rec negb]; frame. Qed.

Lemma inv_autopsy : inv I autopsy.
Proof. unfold autopsy. frame. Qed.

Lemma inv_write_loop n : forall data, inv I (write_loop os data n).
Proof. induction n as [|n IH]; intros data; cbn [write_loop]; frame. Qed.

Lemma inv_write fuel data : inv I (write os fuel data).
Proof.
  unfold write. apply inv_bind; [apply inv_alive_no_recovery|intros a].
  pose proof (inv_write_loop fuel data). frame.
Qed.

Lemma inv_wait fuel : inv I (wait os fuel).
Proof.
  unfold wait. generalize fuel at 2. intros n.
  induction n as [|n IH]; cbn [wait_loop]; frame.
Qed.

End Frame.

(** ** Recovery and carriage returns *)

(** From [s0] to [s]: the ceiling of recoveries stands, the counter of
    recoveries and the number of forks have not decreased, and either
    neither has moved or the counter is within the ceiling. *)
Definition recovering (s0 s : Sys) : Prop :=
  recover_max (self s) = recover_max (self s0) /\
  (recover_attempts (self s0) <= recover_attempts (self s))%nat /\
  (n_fork (world s0) <= n_fork (world s))%nat /\
  ((n_fork (world s) = n_fork (world s0) /\
    recover_attempts (self s) = recover_attempts (self s0)) \/
   (recover_attempts (self s) <= recover_max (self s))%nat).

(** Bytes that are free of carriage returns if the cache of [s0] is. *)
Definition clean_from (s0 : Sys) (c : bytes) : Prop :=
  no_cr (cache (self s0)) -> no_cr c.

Definition sound (s0 s : Sys) : Prop :=
  recovering s0 s /\ clean_from s0 (cache (self s)).

Lemma sound_refl s : sound s s.
Proof.
  unfold sound, recovering, clean_from. repeat split; auto.
Qed.

Lemma sound_view s0 s t : same_view s t -> sound s0 s -> sound s0 t.
Proof.
  unfold same_view, sound, recovering, clean_from.
  intros (H1 & H2 & H3 & H4) ((R1 & R2 & R3 & R4) & C).
  rewrite H1, H2, H3, H4. repeat split; auto.
Qed.

Lemma sound_set_cache s0 c :
  clean_from s0 c -> inv (sound s0) (modify (set_cache c)).
Proof.
  intros Hc s (Hr & _). unfold modify. cbn [post]. split; [exact Hr | exact Hc].
Qed.

Section Sound.

Variable os : OS.
Context {RE : RegexEngine}.
Variable s0 : Sys.

Let framed {A} (m : M A) (H : forall I, (forall s t, same_view s t -> I s -> I t) -> inv I m)
  : inv (sound s0) m := H (sound s0) (sound_view s0).

Lemma sound_take_cached size :
  hoare (sound s0) (take_cached size)
    (fun r s => sound s0 s /\ match r with Some d => clean_from s0 d | None => True end)
    (sound s0).
Proof.
  intros s (Hr & Hc). unfold take_cached. run.
  destruct (nonempty (cache (self s)));
    [|cbn [post]; split; [split; [exact Hr|exact Hc]|exact I]].
  destruct (size =? 0).
  { cbn [post]. split; [split; [exact Hr|]|exact Hc]. intros _. apply no_cr_nil. }
  destruct (size <=? Z.of_nat (Datatypes.length (cache (self s)))); cbn [post].
  - split; [split; [exact Hr|]|]; intros H.
    + apply no_cr_slice_from. auto.
    + apply no_cr_slice_to. auto.
  - split; [split; [exact Hr|exact Hc]|exact I].
Qed.

Lemma sound_drain_cache :
  hoare (sound s0) drain_cache (fun r s => sound s0 s /\ clean_from s0 r) (sound s0).
Proof.
  intros s (Hr & Hc). unfold drain_cache. run. cbn [post].
  split; [split; [exact Hr|]|exact Hc]. intros _. apply no_cr_nil.
Qed.

Lemma sound_ingest buf :
  inv (sound s0) (c <- get cache ;; modify (set_cache (c ++ strip_cr buf))).
Proof.
  intros s (Hr & Hc). run. cbn [post]. split; [exact Hr|].
  intros H. apply no_cr_app; [auto | apply no_cr_strip_cr].
Qed.

Lemma sound_poll fuel : inv (sound s0) (poll os fuel).
Proof.
  unfold poll. apply inv_get; intros po.
  apply inv_bind; [apply framed; intros; now apply inv_sys_select|].
  intros [|f rest]; [now apply hoare_ret|].
  apply inv_bind; [apply framed; intros; now apply inv_sys_read|].
  intros buf. destruct ((length buf =? 0)%nat && darwin os).
  - apply inv_bind; [apply framed; intros; now apply inv_finalize|].
    intros u. apply inv_get; intros c. now apply hoare_raise.
  - apply sound_ingest.
Qed.

Lemma sound_read_loop fuel size timeout start n :
  hoare (sound s0) (read_loop os fuel size timeout start n)
    (fun r s => sound s0 s /\ clean_from s0 r) (sound s0).
Proof.
  induction n as [|n IH]; cbn [read_loop]; [apply hoare_out_of_fuel|].
  eapply hoare_bind; [apply sound_take_cached|].
  intros [d|]; [apply hoare_ret; tauto|].
  eapply hoare_conseq with (P := sound s0) (Q := fun r s => sound s0 s /\ clean_from s0 r);
    [|tauto|auto].
  apply hoare_bind_inv; [apply sound_poll|]. intros u.
  eapply hoare_bind; [apply sound_take_cached|].
  intros [d|]; [apply hoare_ret; tauto|].
  eapply hoare_conseq with (P := sound s0) (Q := fun r s => sound s0 s /\ clean_from s0 r);
    [|tauto|auto].
  destruct (timeout =? 0).
  { intros s Hs. unfold bind, get.
    destruct (nonempty (cache (self s))); [now apply sound_drain_cache | now apply IH]. }
  destruct (timeout <? 0); [apply sound_drain_cache|].
  apply hoare_bind_inv; [apply framed; intros; now apply inv_sys_time|].
  intros now. destruct (now - start >? timeout); [apply sound_drain_cache | apply IH].
Qed.

Lemma sound_read fuel size timeout :
  hoare (sound s0) (read os fuel size timeout)
    (fun r s => sound s0 s /\ clean_from s0 r) (sound s0).
Proof.
  unfold read. apply hoare_bind_inv.
  { apply framed; intros; now apply inv_alive_no_recovery. }
  intros [|]; cbn [negb].
  - eapply hoare_try.
    + apply hoare_bind_inv; [apply framed; intros; now apply inv_sys_time|].
      intros start. apply sound_read_loop.
    + intros e. unfold read_handler.
      assert (hoare (sound s0)
                (c <- get cache ;;
                 raise (NoSuccess ReadFailed (Some e) (Some (tail256 c))))
                (fun (r : bytes) s => sound s0 s /\ clean_from s0 r) (sound s0)) as Hw.
      { intros s Hs. cbn [post]. exact Hs. }
      destruct e; try exact Hw. destruct at_; exact Hw.
  - intros s Hs. unfold bind, get.
    destruct (nonempty (cache (self s))); cbn [post]; exact Hs.
Qed.

Lemma sound_parsing {A} data (m : M A) Q :
  hoare (sound s0) m Q (sound s0) -> hoare (sound s0) (parsing data m) Q (sound s0).
Proof.
  intros H. unfold parsing. eapply hoare_try; [exact H|].
  intros e. now apply hoare_raise.
Qed.

Lemma sound_first_data fuel :
  hoare (sound s0) (first_data os fuel)
    (fun r s => sound s0 s /\ clean_from s0 r) (sound s0).
Proof.
  unfold first_data. eapply hoare_bind; [apply sound_drain_cache|].
  intros data. destruct (nonempty data).
  - apply hoare_ret. tauto.
  - eapply hoare_conseq with (P := sound s0); [|tauto|intros a s H; exact H].
    apply sound_parsing, sound_read.
Qed.

Lemma sound_find_loop fuel patts timeout start n : forall data,
  clean_from s0 data ->
  inv (sound s0) (find_loop os fuel patts timeout start data n).
Proof.
  induction n as [|n IH]; intros data Hd; cbn [find_loop];
    [apply hoare_out_of_fuel|].
  destruct (first_match patts 0 data) as [[i e]|].
  { apply inv_bind; [|intros; now apply hoare_ret].
    apply sound_set_cache. intros H. apply no_cr_skipn. auto. }
  destruct (timeout =? 0); [now apply hoare_ret|].
  apply inv_bind.
  { destruct (timeout >? 0); [|now apply hoare_ret].
    apply inv_bind; [apply framed; intros; now apply inv_sys_time|].
    intros; now apply hoare_ret. }
  intros [|].
  - apply inv_bind; [|intros; now apply hoare_ret].
    now apply sound_set_cache.
  - eapply hoare_bind; [apply sound_parsing, sound_read|].
    intros more. eapply hoare_conseq with (P := fun s => sound s0 s /\ clean_from s0 more).
    + intros s (Hs & Hm). apply (IH (data ++ more)); [|exact Hs].
      intros H. apply no_cr_app; auto.
    + auto.
    + auto.
Qed.

Lemma sound_find fuel patterns timeout :
  inv (sound s0) (find os fuel patterns timeout).
Proof.
  unfold find. apply inv_bind; [apply framed; intros; now apply inv_sys_time|].
  intros start. eapply hoare_bind; [apply sound_first_data|].
  intros data. destruct (compile_all patterns) as [patts|].
  - intros s (Hs & Hd). now apply sound_find_loop.
  - eapply hoare_conseq with (P := sound s0) (Q := fun _ => sound s0); [|tauto|auto].
    apply sound_parsing. now apply hoare_raise.
Qed.

(** A fork made with the counter of recoveries within its ceiling. *)
Lemma sound_initialize :
  hoare (fun s => sound s0 s /\
                  (recover_attempts (self s) <= recover_max (self s))%nat)
    (initialize os) (fun _ => sound s0) (sound s0).
Proof.
  intros s ((Hr & Hc) & Ha). unfold initialize, sys_fork. run.
  destruct Hr as (R1 & R2 & R3 & R4).
  destruct (child (self s)); cbn [post]; [repeat split; auto|].
  destruct (os_fork os (n_fork (world s))) as [errno|p f ok]; proj; cbn [post].
  - unfold sound, recovering. proj. repeat split; auto.
  - destruct ok; cbn [post]; unfold sound, recovering; proj; repeat split; auto.
Qed.

Lemma sound_alive_rec fuel n : forall recover,
  inv (sound s0) (alive_rec os fuel recover n).
Proof.
  induction n as [|n IH]; intros recover; cbn [alive_rec];
    [apply hoare_out_of_fuel|].
  apply inv_get; intros c. apply inv_bind.
  { destruct c as [p|]; [|now apply hoare_ret].
    apply inv_bind; [apply framed; intros; now apply inv_alive_poll|].
    intros [wstat|]; [|now apply hoare_ret].
    apply inv_bind; [apply framed; intros; now apply inv_modify|].
    intros u. apply inv_bind; [apply framed; intros; now apply inv_finalize|].
    intros; now apply hoare_ret. }
  intros [|]; [now apply hoare_ret|].
  destruct (negb recover); [now apply hoare_ret|].
  intros s Hs. unfold bind at 1, get at 1. unfold bind at 1, get at 1.
  destruct (recover_max (self s) <=? recover_attempts (self s))%nat eqn:Hle;
    [exact Hs|].
  apply Nat.leb_gt in Hle.
  unfold bind at 1, modify at 1.
  match goal with |- post _ _ (bind _ _ ?t) =>
    apply (hoare_bind (fun s => sound s0 s /\
                         (recover_attempts (self s) <= recover_max (self s))%nat)
             (initialize os) (fun _ => alive_rec os fuel true n)
             (fun _ => sound s0) (fun _ => sound s0) (sound s0)
             sound_initialize (fun _ => IH true) t)
  end.
  destruct Hs as ((R1 & R2 & R3 & R4) & Hc).
  unfold sound, recovering. proj. repeat split; auto; lia.
Qed.

Lemma sound_run fuel o : inv (sound s0) (run os fuel o).
Proof.
  destruct o; cbn [run].
  - apply inv_bind; [|intros; now apply hoare_ret].
    eapply inv_result, sound_read.
  - apply inv_bind; [|intros; now apply hoare_ret]. apply sound_find.
  - apply framed; intros; now apply inv_write.
  - apply inv_bind; [|intros; now apply hoare_ret]. apply sound_alive_rec.
  - apply framed; intros; now apply inv_wait.
  - apply framed; intros; now apply inv_finalize.
  - apply inv_bind; [|intros; now apply hoare_ret].
    apply framed; intros; now apply inv_autopsy.
Qed.

End Sound.

(** ** The counter of recoveries *)

Lemma alive_gives_up os fuel s t :
  alive os fuel false s = Ret false t ->
  (recover_max (self s) <= recover_attempts (self s))%nat ->
  alive os fuel true s = Ret false t.
Proof.
  intros H Hle.
  destruct (alive_dead_frame os fuel s t H) as (_ & _ & Ha & Hm & _).
  revert H. unfold alive. destruct fuel as [|n]; cbn [alive_rec]; [discriminate|].
  run. destruct (child (self s)) as [p|].
  - destruct (alive_poll os p (S n) s) as [[wstat|] s1|e s1|]; try discriminate.
    match goal with |- context [finalize os ?f (Some wstat) ?u] =>
      destruct (finalize_status_frame os f wstat u) as (s2 & E & _);
      rewrite E end.
    intros H; injection H as ->. rewrite Ha, Hm.
    apply Nat.leb_le in Hle. rewrite Hle. reflexivity.
  - intros H; injection H as ->.
    apply Nat.leb_le in Hle. rewrite Hle. reflexivity.
Qed.

(** C6: over any operation of the controller, whether it returns or
    raises, [recover_max] stands and [recover_attempts] does not decrease;
    if a fork was made during the operation, [recover_attempts] is at most
    [recover_max] afterwards, hence at the fork.  When the child is dead
    and [recover_attempts >= recover_max], [alive (recover=True)] answers
    [False] as [alive (recover=False)] does, without a fork and without
    touching the counter. *)
Theorem recover_attempts_monotone_and_bounded
    (os : OS) (RE : RegexEngine) (fuel : nat) (o : op) (s : Sys) :
  post
    (fun _ t =>
       (recover_attempts (self s) <= recover_attempts (self t))%nat /\
       recover_max (self t) = recover_max (self s) /\
       ((n_fork (world s) < n_fork (world t))%nat ->
        (recover_attempts (self t) <= recover_max (self t))%nat))
    (fun t =>
       (recover_attempts (self s) <= recover_attempts (self t))%nat /\
       recover_max (self t) = recover_max (self s) /\
       ((n_fork (world s) < n_fork (world t))%nat ->
        (recover_attempts (self t) <= recover_max (self t))%nat))
    (run os fuel o s) /\
  (forall t,
     alive os fuel false s = Ret false t ->
     (recover_max (self s) <= recover_attempts (self s))%nat ->
     alive os fuel true s = Ret false t /\
     n_fork (world t) = n_fork (world s) /\
     recover_attempts (self t) = recover_attempts (self s)).
Proof.
  split.
  - pose proof (sound_run os s fuel o s (sound_refl s)) as H.
    destruct (run os fuel o s) as [a t|e t|]; cbn [post] in *; auto;
      destruct H as ((R1 & R2 & R3 & R4) & _); repeat split; auto; lia.
  - intros t H Hle. split; [now apply alive_gives_up|].
    destruct (alive_dead_frame os fuel s t H) as (_ & _ & Ha & _ & Hf & _).
    auto.
Qed.

Lemma recover_attempts_monotone_and_bounded_witness :
  (exists t,
     alive Sample.respawning 2 true (Sample.running []) = Ret true t /\
     recover_attempts (self t) = 1%nat /\ n_fork (world t) = 1%nat /\
     child (self t) = Some 101%positive) /\
  (exists t,
     alive Sample.exited 2 true Sample.worn_out = Ret false t /\
     n_fork (world t) = 0%nat /\ recover_attempts (self t) = 3%nat).
Proof.
  split.
  - eexists. split; [reflexivity|].
    destruct (recover_attempts_monotone_and_bounded Sample.respawning literal 2
                (Alive true) (Sample.running [])) as (_ & _).
    repeat split; reflexivity.
  - eexists.
    destruct (recover_attempts_monotone_and_bounded Sample.exited literal 2
                (Alive true) Sample.worn_out) as (_ & H).
    apply H; [reflexivity | cbn; lia].
Defined.

(** ** Carriage returns *)

Lemma init_cache os cmd w :
  post (fun _ t => cache (self t) = []) (fun t => cache (self t) = [])
    (__init__ os cmd w).
Proof.
  unfold __init__. destruct cmd as [|c cmd]; [cbn; reflexivity|].
  unfold initialize, sys_fork, fresh. run.
  destruct (os_fork os (n_fork w)) as [errno|p f ok]; [cbn; reflexivity|].
  destruct ok; cbn; reflexivity.
Qed.

(** C8: the cache of a controller just constructed is empty, and any
    operation of the controller (read, find, write, alive, wait, finalize,
    autopsy), whether it returns or raises, leaves a cache without carriage
    return when it starts from one; a poll appends to the cache the chunk
    read with its carriage returns stripped. *)
Theorem cache_never_holds_cr
    (os : OS) (RE : RegexEngine) (fuel : nat) (o : op) (s : Sys) :
  no_cr (cache (self s)) ->
  post (fun _ t => no_cr (cache (self t))) (fun t => no_cr (cache (self t)))
    (run os fuel o s) /\
  (forall cmd w,
     post (fun _ t => no_cr (cache (self t))) (fun t => no_cr (cache (self t)))
       (__init__ os cmd w)) /\
  (forall t, poll os fuel s = Ret tt t ->
     exists new, ingested (world t) = ingested (world s) ++ new /\
                 cache (self t) = cache (self s) ++ strip_cr (concat new)).
Proof.
  intros Hs. split; [|split].
  - pose proof (sound_run os s fuel o s (sound_refl s)) as H.
    destruct (run os fuel o s) as [a t|e t|]; cbn [post] in *; auto;
      destruct H as (_ & Hc); now apply Hc.
  - intros cmd w. pose proof (init_cache os cmd w) as H.
    destruct (__init__ os cmd w); cbn [post] in *; auto;
      rewrite H; apply no_cr_nil.
  - intros t H. apply poll_ret in H. destruct H as (new & H1 & H2 & _).
    exists new. auto.
Qed.

Lemma cache_never_holds_cr_witness :
  no_cr (cache (self Sample.prompted)) /\
  cache (self Sample.prompted) = bs " " /\
  ingested (world Sample.prompted) = [bs "ok" ++ CR :: bs "> "].
Proof.
  destruct (cache_never_holds_cr Sample.talking literal 5
              (Find [bs "#"; bs ">"] 50) (Sample.running []) no_cr_nil)
    as (H & _).
  split; [exact H|]. split; reflexivity.
Defined.

(** * find with a deadline *)

(** The chunk that the [k]-th [os.read] returns, and [j] chunks in a row. *)
Definition chunk_at (os : OS) (k : nat) : bytes :=
  match os_read os k with ReadOk buf => buf | ReadErr _ => [] end.

Fixpoint chunks (os : OS) (k j : nat) : list bytes :=
  match j with
  | O => []
  | S j' => chunk_at os k :: chunks os (S k) j'
  end.

Lemma chunks_app os i : forall k j,
  chunks os k (i + j) = chunks os k i ++ chunks os (k + i) j.
Proof.
  induction i as [|i IH]; intros k j; cbn [chunks Nat.add app].
  - now rewrite Nat.add_0_r.
  - rewrite IH. do 3 f_equal. lia.
Qed.

Lemma same_but_cache_child p q : same_but_cache p q -> child p = child q.
Proof. intros H. apply (f_equal child) in H. exact H. Qed.

Lemma same_but_cache_parent_out p q :
  same_but_cache p q -> parent_out p = parent_out q.
Proof. intros H. apply (f_equal parent_out) in H. exact H. Qed.

Section Deadline.

Variable os : OS.
Context {RE : RegexEngine}.

(** The child keeps running, [select] and [os.read] do not fail, no read
    is taken for the end of the file, and the clock does not go back. *)
Hypothesis child_runs : forall k, exists w, os_waitpid os k = WaitOk 0 w.
Hypothesis select_works : forall k, os_select os k <> SelError.
Hypothesis read_works :
  forall k, exists buf, os_read os k = ReadOk buf /\
                        (Datatypes.length buf =? 0)%nat && darwin os = false.
Hypothesis clock_monotone : forall k, os_time os k <= os_time os (S k).

Lemma clock_mono k d : os_time os k <= os_time os (k + d).
Proof.
  induction d as [|d IH].
  - rewrite Nat.add_0_r. lia.
  - replace (k + S d)%nat with (S (k + d)) by lia.
    pose proof (clock_monotone (k + d)). lia.
Qed.

Lemma clock_le k k' : (k <= k')%nat -> os_time os k <= os_time os k'.
Proof.
  intros H. replace k' with (k + (k' - k))%nat by lia. apply clock_mono.
Qed.

(** One poll brings no chunk or one. *)
Lemma poll_quiet fuel s f :
  parent_out (self s) = Some f ->
  cache (self s) = [] ->
  exists j s1,
    poll os fuel s = Ret tt s1 /\
    cache (self s1) = strip_cr (concat (chunks os (n_read (world s)) j)) /\
    same_but_cache (self s1) (self s) /\
    n_read (world s1) = (n_read (world s) + j)%nat /\
    ingested (world s1) = ingested (world s) ++ chunks os (n_read (world s)) j /\
    n_time (world s1) = n_time (world s).
Proof.
  intros Hp Hc.
  destruct (os_select os (n_select (world s))) eqn:Hs.
  - exists 0%nat. eexists. split; [now apply poll_timeout with (f := f)|].
    proj. cbn [chunks concat]. rewrite Nat.add_0_r, app_nil_r.
    repeat split; auto.
  - destruct (read_works (n_read (world s))) as (buf & Hr & He).
    exists 1%nat. eexists.
    split; [apply poll_data with (f := f) (buf := buf); assumption|].
    proj. cbn [chunks concat]. unfold chunk_at. rewrite Hr, Hc, app_nil_r.
    repeat split; auto. lia.
  - now elim (select_works (n_select (world s))).
Qed.

(** The loop of [read] is over when the clock is read for the [D]-th
    time at the latest, if that reading is past the deadline. *)
Lemma read_loop_deadline fuel timeout start f D :
  0 < timeout ->
  os_time os D - start > timeout ->
  forall m n s,
  (D - n_time (world s) <= m)%nat ->
  (m < n)%nat ->
  cache (self s) = [] ->
  parent_out (self s) = Some f ->
  exists j s',
    read_loop os fuel 0 timeout start n s
      = Ret (strip_cr (concat (chunks os (n_read (world s)) j))) s' /\
    cache (self s') = [] /\
    same_but_cache (self s') (self s) /\
    n_read (world s') = (n_read (world s) + j)%nat /\
    ingested (world s') = ingested (world s) ++ chunks os (n_read (world s)) j /\
    (n_time (world s) <= n_time (world s'))%nat.
Proof.
  intros Ht HD. induction m as [|m IH]; intros n s Hm Hn Hc Hp.
  all: destruct n as [|n]; [lia|]; cbn [read_loop].
  all: unfold bind at 1; rewrite (take_cached_empty 0 s Hc).
  all: destruct (poll_quiet fuel s f Hp Hc)
         as (j0 & s1 & E & P1 & P2 & P3 & P4 & P5).
  all: unfold bind at 1; rewrite E; unfold bind at 1; rewrite take_cached_0.
  all: destruct (nonempty (cache (self s1))) eqn:Hne.
  1,3: exists j0; eexists; (split; [rewrite P1; reflexivity|]); proj;
       repeat split; auto; lia.
  all: apply nonempty_false in Hne.
  all: replace (timeout =? 0) with false by (symmetry; apply Z.eqb_neq; lia).
  all: replace (timeout <? 0) with false by (symmetry; apply Z.ltb_ge; lia).
  all: unfold bind at 1, sys_time; run.
  all: destruct (os_time os (n_time (world s1)) - start >? timeout) eqn:Hx.
  1,3: exists j0; eexists;
       (split; [unfold drain_cache; run; rewrite P1; reflexivity|]);
       proj; repeat split; auto; lia.
  all: assert (os_time os (n_time (world s)) - start <= timeout) as Hle
         by (rewrite P5 in Hx;
             destruct (Z.gtb_spec (os_time os (n_time (world s)) - start) timeout);
             [discriminate | lia]).
  all: assert (n_time (world s) < D)%nat as Hlt
         by (destruct (Nat.lt_ge_cases (n_time (world s)) D) as [|Hge]; [assumption|];
             pose proof (clock_le _ _ Hge); lia).
  - exfalso. lia.
  - destruct (IH n {| self := self s1; world := tick_time (world s1) |})
      as (j & s' & E' & Q1 & Q2 & Q3 & Q4 & Q5); proj; auto; try lia.
    + rewrite (same_but_cache_parent_out _ _ P2). exact Hp.
    + exists (j0 + j)%nat, s'. rewrite chunks_app, concat_app, strip_cr_app.
      rewrite <- P1, Hne. cbn [app]. rewrite <- P3.
      split; [exact E'|]. split; [exact Q1|].
      split; [eapply same_but_cache_trans; eauto|].
      split; [lia|]. split; [|lia].
      rewrite Q4, P4, app_assoc. reflexivity.
Qed.

Lemma read_deadline fuel timeout D s p f :
  0 < timeout ->
  os_time os D - os_time os (n_time (world s)) > timeout ->
  (D - n_time (world s) < fuel)%nat ->
  child (self s) = Some p ->
  parent_out (self s) = Some f ->
  cache (self s) = [] ->
  exists j s',
    read os fuel 0 timeout s
      = Ret (strip_cr (concat (chunks os (n_read (world s)) j))) s' /\
    cache (self s') = [] /\
    same_but_cache (self s') (self s) /\
    n_read (world s') = (n_read (world s) + j)%nat /\
    ingested (world s') = ingested (world s) ++ chunks os (n_read (world s)) j /\
    (n_time (world s) < n_time (world s'))%nat.
Proof.
  intros Ht HD Hf Hch Hp Hc. destruct fuel as [|n]; [lia|].
  destruct (child_runs (n_waitpid (world s))) as (w & Hw).
  unfold read. unfold bind at 1. rewrite (alive_running os n false s p w Hch Hw).
  cbn [negb]. unfold try_except, sys_time. run.
  destruct (read_loop_deadline (S n) timeout (os_time os (n_time (world s))) f D
              Ht HD (D - S (n_time (world s))) (S n)
              {| self := self s; world := tick_time (tick_waitpid (world s)) |})
    as (j & s' & E & Q1 & Q2 & Q3 & Q4 & Q5); proj; auto; try lia.
  rewrite E. exists j, s'. repeat split; auto.
Qed.

(** The loop of [find], when each read of [_POLLDELAY] is over within [B]
    readings of the clock. *)
Lemma find_loop_deadline fuel patts timeout start p f c0 k0 ing0 B D :
  0 < timeout ->
  (forall k, os_time os (k + B) - os_time os k > _POLLDELAY) ->
  (B < fuel)%nat ->
  os_time os D - start > timeout ->
  (forall j, first_match patts 0 (c0 ++ strip_cr (concat (chunks os k0 j))) = None) ->
  forall m n j0 s,
  (D - n_time (world s) <= m)%nat ->
  (m < n)%nat ->
  cache (self s) = [] ->
  child (self s) = Some p ->
  parent_out (self s) = Some f ->
  n_read (world s) = (k0 + j0)%nat ->
  ingested (world s) = ing0 ++ chunks os k0 j0 ->
  exists j s',
    find_loop os fuel patts timeout start
      (c0 ++ strip_cr (concat (chunks os k0 j0))) n s = Ret (None, None) s' /\
    cache (self s') = c0 ++ strip_cr (concat (chunks os k0 j)) /\
    same_but_cache (self s') (self s) /\
    ingested (world s') = ing0 ++ chunks os k0 j.
Proof.
  intros Ht HB Hf HD Hmiss.
  induction m as [|m IH]; intros n j0 s Hm Hn Hc Hch Hp Hr Hi.
  all: destruct n as [|n]; [lia|]; cbn [find_loop].
  all: rewrite Hmiss.
  all: replace (timeout =? 0) with false by (symmetry; apply Z.eqb_neq; lia).
  all: replace (timeout >? 0) with true by (symmetry; apply Z.gtb_lt; lia).
  all: unfold bind at 1, sys_time; run.
  all: destruct (os_time os (n_time (world s)) - start >? timeout) eqn:Hx.
  1,3: exists j0; eexists; (split; [reflexivity|]); proj;
       repeat split; auto.
  all: assert (os_time os (n_time (world s)) - start <= timeout) as Hle
         by (destruct (Z.gtb_spec (os_time os (n_time (world s)) - start) timeout);
             [discriminate | lia]).
  all: assert (n_time (world s) < D)%nat as Hlt
         by (destruct (Nat.lt_ge_cases (n_time (world s)) D) as [|Hge]; [assumption|];
             pose proof (clock_le _ _ Hge); lia).
  - exfalso. lia.
  - destruct (read_deadline fuel _POLLDELAY (S (n_time (world s)) + B)
                {| self := self s; world := tick_time (world s) |} p f)
      as (j1 & s1 & E & Q1 & Q2 & Q3 & Q4 & Q5); proj; auto;
      try reflexivity; try lia; try apply HB.
    unfold parsing, try_except. rewrite E.
    destruct (IH n (j0 + j1)%nat s1)
      as (j & s' & E' & R1 & R2 & R3); auto; try lia.
    + rewrite (same_but_cache_child _ _ Q2). exact Hch.
    + rewrite (same_but_cache_parent_out _ _ Q2). exact Hp.
    + rewrite Q4, Hi, Hr, <- app_assoc, <- chunks_app. reflexivity.
    + exists j, s'. rewrite chunks_app, concat_app, strip_cr_app, app_assoc in E'.
      rewrite <- Hr in E'.
      split; [exact E'|]. split; [exact R1|].
      split; [eapply same_but_cache_trans; eauto|]. exact R3.
Qed.

End Deadline.

(** * Further properties of the read engine *)

(** Python's two slices at the same index split the string. *)
Lemma slice_split (k : Z) (s : bytes) : slice_to k s ++ slice_from k s = s.
Proof.
  unfold slice_to, slice_from. destruct (k <? 0); apply firstn_skipn.
Qed.

Lemma slice_to_length (k : Z) (s : bytes) :
  0 <= k <= Z.of_nat (Datatypes.length s) ->
  Z.of_nat (Datatypes.length (slice_to k s)) = k.
Proof.
  intros H. unfold slice_to.
  replace (k <? 0) with false by (symmetry; apply Z.ltb_ge; lia).
  rewrite firstn_length_le; lia.
Qed.

(** A read that the cache can serve: with [size = 0] the whole cache is
    returned, otherwise, when [size] does not exceed the length of the
    cache, the slice [cache[:size]] is returned and [cache[size:]] is kept.
    Either way no byte is lost or duplicated, and the master is neither
    polled nor read. *)
Theorem read_served_from_cache
    (os : OS) (fuel : nat) (size timeout : Z) (s s1 : Sys) :
  alive os fuel false s = Ret true s1 ->
  cache (self s) <> [] ->
  size <= Z.of_nat (Datatypes.length (cache (self s))) ->
  exists r s',
    read os fuel size timeout s = Ret r s' /\
    r ++ cache (self s') = cache (self s) /\
    (size = 0 -> r = cache (self s)) /\
    (size <> 0 -> r = slice_to size (cache (self s))) /\
    (0 < size -> Z.of_nat (Datatypes.length r) = size) /\
    n_select (world s') = n_select (world s) /\
    n_read (world s') = n_read (world s).
Proof.
  intros Ha Hne Hsz.
  destruct (alive_true_waited os fuel s s1 Ha) as (W1 & _ & W2 & W3 & _).
  destruct fuel as [|n]; [discriminate Ha|].
  unfold read. unfold bind at 1. rewrite Ha. cbn [negb].
  unfold try_except, sys_time. run. cbn [read_loop].
  unfold bind at 1, take_cached. run. rewrite W1.
  destruct (cache (self s)) as [|c0 cs] eqn:Hc; [now elim Hne|].
  cbn [nonempty]. destruct (size =? 0) eqn:Hz.
  - apply Z.eqb_eq in Hz. do 2 eexists. split; [reflexivity|]. proj.
    rewrite app_nil_r. repeat split; auto; try congruence; lia.
  - apply Z.eqb_neq in Hz.
    replace (size <=? Z.of_nat (Datatypes.length (c0 :: cs))) with true
      by (symmetry; apply Z.leb_le; exact Hsz).
    do 2 eexists. split; [reflexivity|]. proj.
    split; [apply slice_split|]. repeat split; auto; try congruence.
    intros Hp. apply slice_to_length. lia.
Qed.

Lemma read_served_from_cache_witness :
  exists s',
    read Sample.silent 1 2 0 (Sample.running (bs "hello")) = Ret (bs "he") s' /\
    cache (self s') = bs "llo" /\
    n_select (world s') = 0%nat.
Proof.
  destruct (read_served_from_cache Sample.silent 1 2 0
              (Sample.running (bs "hello")) _ eq_refl)
    as (r & s' & E & _ & _ & _ & _ & H & _).
  - discriminate.
  - cbn. lia.
  - vm_compute in E. injection E as <- <-. eexists.
    split; [reflexivity|]. split; reflexivity.
Defined.

(** [read (timeout < 0)] on a running child with an empty cache makes one
    poll and returns: the empty string when the poll times out, the chunk
    without its carriage returns when the master was ready. *)
Theorem read_negative_timeout_polls_once
    (os : OS) (n : nat) (timeout : Z) (s : Sys) (p : pid) (w : wstatus) (f : fd) :
  timeout < 0 ->
  child (self s) = Some p ->
  os_waitpid os (n_waitpid (world s)) = WaitOk 0 w ->
  parent_out (self s) = Some f ->
  cache (self s) = [] ->
  os_select os (n_select (world s)) <> SelError ->
  (exists buf, os_read os (n_read (world s)) = ReadOk buf /\
               (Datatypes.length buf =? 0)%nat && darwin os = false) ->
  exists r s',
    read os (S n) 0 timeout s = Ret r s' /\
    cache (self s') = [] /\
    n_select (world s') = S (n_select (world s)) /\
    (os_select os (n_select (world s)) = SelTimeout ->
     r = [] /\ n_read (world s') = n_read (world s)) /\
    (os_select os (n_select (world s)) = SelReady ->
     r = strip_cr (chunk_at os (n_read (world s))) /\
     n_read (world s') = S (n_read (world s))).
Proof.
  intros Ht Hc Hw Hp Hcache Hsel (buf & Hr & He).
  unfold read. unfold bind at 1. rewrite (alive_running os n false s p w Hc Hw).
  cbn [negb]. unfold try_except, sys_time. run. cbn [read_loop].
  unfold bind at 1. rewrite take_cached_empty by (proj; exact Hcache).
  unfold bind at 1.
  replace (timeout =? 0) with false by (symmetry; apply Z.eqb_neq; lia).
  replace (timeout <? 0) with true by (symmetry; apply Z.ltb_lt; lia).
  destruct (os_select os (n_select (world s))) eqn:Hs.
  - erewrite poll_timeout by (proj; eauto).
    unfold bind at 1. rewrite take_cached_empty by (proj; exact Hcache).
    unfold drain_cache. run. rewrite Hcache.
    do 2 eexists. split; [reflexivity|]. proj.
    repeat split; auto; discriminate.
  - erewrite poll_data with (buf := buf) by (proj; eauto).
    unfold bind at 1. rewrite take_cached_0. proj. rewrite Hcache. cbn [app].
    unfold chunk_at. rewrite Hr.
    destruct (strip_cr buf) eqn:Hb; cbn [nonempty].
    + unfold drain_cache. run. do 2 eexists. split; [reflexivity|]. proj.
      repeat split; auto; discriminate.
    + do 2 eexists. split; [reflexivity|]. proj.
      repeat split; auto; discriminate.
  - now elim Hsel.
Qed.

Lemma read_negative_timeout_polls_once_witness :
  exists s',
    read Sample.silent 1 0 (-1) (Sample.running []) = Ret [] s' /\
    n_select (world s') = 1%nat.
Proof.
  destruct (read_negative_timeout_polls_once Sample.silent 0 (-1)
              (Sample.running []) 100%positive (WExited 0) 3%positive)
    as (r & s' & E & _ & H1 & H2 & _); try reflexivity.
  - cbn. discriminate.
  - exists []. split; reflexivity.
  - destruct (H2 eq_refl) as (-> & _). exists s'. split; [exact E | exact H1].
Defined.



(** * The post-mortem *)

Lemma tail256_suffix (c : bytes) : exists pre, c = pre ++ tail256 c.
Proof.
  exists (slice_to (-256) c). symmetry. apply slice_split.
Qed.

Lemma tail256_length (c : bytes) : (Datatypes.length (tail256 c) <= 256)%nat.
Proof.
  unfold tail256, slice_from. cbn [Z.ltb Z.compare Z.opp].
  rewrite length_skipn. change (Z.to_nat 256) with 256%nat. lia.
Qed.

Lemma tail256_short (c : bytes) :
  (Datatypes.length c <= 256)%nat -> tail256 c = c.
Proof.
  intros H. unfold tail256, slice_from. cbn [Z.ltb Z.compare Z.opp].
  change (Z.to_nat 256) with 256%nat.
  replace (Datatypes.length c - 256)%nat with 0%nat by lia. reflexivity.
Qed.

(** [autopsy] changes nothing.  For a live child it is a false alarm; for
    a dead one it reports the exit code, the exit signal and an end of the
    cache of at most 256 bytes, the whole cache when it is that short. *)
Theorem autopsy_reports_without_effect (s : Sys) :
  exists r,
    autopsy s = Ret r s /\
    match child (self s) with
    | Some p => r = FalseAlarm p
    | None =>
        exists out,
          r = Report (exit_code (self s)) (exit_signal (self s)) out /\
          (Datatypes.length out <= 256)%nat /\
          (exists pre, cache (self s) = pre ++ out) /\
          ((Datatypes.length (cache (self s)) <= 256)%nat -> out = cache (self s))
    end.
Proof.
  unfold autopsy. run. destruct (child (self s)) as [p|].
  - eexists. split; reflexivity.
  - eexists. split; [reflexivity|]. eexists. split; [reflexivity|].
    split; [apply tail256_length|].
    split; [apply tail256_suffix | apply tail256_short].
Qed.

(** * The life of the child *)

(** A report that [alive] and [wait] pass over: nothing new, or a stop or
    a continuation. *)
Definition ignorable (r : wait_result) : bool :=
  match r with
  | WaitErr _ => false
  | WaitOk wpid wstat => negb (wpid =? 0) && stopped_or_continued wstat
  end.

Definition waitpid_ticks (k : nat) (w : World) : World :=
  {| n_waitpid := (n_waitpid w + k)%nat; n_select := n_select w;
     n_read := n_read w; n_time := n_time w; n_fork := n_fork w;
     n_close := n_close w; n_wselect := n_wselect w; n_write := n_write w;
     killed := killed w; closes := closes w; ingested := ingested w |}.

Lemma waitpid_ticks_S k w :
  waitpid_ticks k (tick_waitpid w) = waitpid_ticks (S k) w.
Proof.
  unfold waitpid_ticks, tick_waitpid. proj. f_equal. lia.
Qed.

Lemma alive_poll_skips os p k : forall n s w,
  (k < n)%nat ->
  (forall j, (j < k)%nat ->
     ignorable (os_waitpid os (n_waitpid (world s) + j)) = true) ->
  os_waitpid os (n_waitpid (world s) + k) = WaitOk 0 w ->
  alive_poll os p n s
  = Ret None {| self := self s; world := waitpid_ticks (S k) (world s) |}.
Proof.
  induction k as [|k IH]; intros n s w Hn Hq Hw;
    (destruct n as [|n]; [lia|]); cbn [alive_poll]; unfold sys_waitpid; run.
  - rewrite Nat.add_0_r in Hw. rewrite Hw. cbn [Z.eqb].
    f_equal. f_equal. unfold waitpid_ticks, tick_waitpid. proj. f_equal. lia.
  - pose proof (Hq 0%nat ltac:(lia)) as H0. rewrite Nat.add_0_r in H0.
    destruct (os_waitpid os (n_waitpid (world s))) as [errno|wpid wstat];
      [discriminate|].
    cbn [ignorable] in H0. apply andb_prop in H0. destruct H0 as (Hz & Hst).
    destruct (wpid =? 0); [discriminate|]. rewrite Hst.
    rewrite (IH n {| self := self s; world := tick_waitpid (world s) |} w);
      proj; try lia.
    + now rewrite waitpid_ticks_S.
    + intros j Hj. replace (S (n_waitpid (world s)) + j)%nat
        with (n_waitpid (world s) + S j)%nat by lia. apply Hq. lia.
    + replace (S (n_waitpid (world s)) + k)%nat
        with (n_waitpid (world s) + S k)%nat by lia. exact Hw.
Qed.

(** Stops and continuations of the child do not count as its death: when
    [k] such reports are followed by "no change", [alive] answers [True]
    after [k + 1] calls of [waitpid], whatever [recover] is, and the
    controller is untouched. *)
Theorem alive_ignores_stop_and_continue
    (os : OS) (fuel k : nat) (recover : bool) (s : Sys) (p : pid) (w : wstatus) :
  child (self s) = Some p ->
  (k < fuel)%nat ->
  (forall j, (j < k)%nat ->
     ignorable (os_waitpid os (n_waitpid (world s) + j)) = true) ->
  os_waitpid os (n_waitpid (world s) + k) = WaitOk 0 w ->
  alive os fuel recover s
  = Ret true {| self := self s; world := waitpid_ticks (S k) (world s) |}.
Proof.
  intros Hc Hk Hq Hw. unfold alive. destruct fuel as [|n]; [lia|].
  cbn [alive_rec]. unfold bind at 1, get at 1. rewrite Hc.
  unfold bind at 1. unfold bind at 1.
  rewrite (alive_poll_skips os p k (S n) s w Hk Hq Hw). reflexivity.
Qed.

Lemma alive_ignores_stop_and_continue_witness :
  alive Sample.suspended 3 true (Sample.running [])
  = Ret true {| self := self (Sample.running []);
                world := waitpid_ticks 3 Sample.world0 |}.
Proof.
  apply (alive_ignores_stop_and_continue Sample.suspended 3 2 true
           (Sample.running []) 100%positive (WExited 0)).
  - reflexivity.
  - lia.
  - intros [|[|j]] Hj; try reflexivity; lia.
  - reflexivity.
Defined.

(** ** Recovery comes to an end *)

Lemma initialize_outcome os s :
  exists s',
    (initialize os s = Ret tt s' \/ exists e, initialize os s = Raise e s') /\
    recover_attempts (self s') = recover_attempts (self s) /\
    recover_max (self s') = recover_max (self s).
Proof.
  unfold initialize, sys_fork. run.
  destruct (child (self s)); [eexists; split; [left; reflexivity|]; auto|].
  destruct (os_fork os (n_fork (world s))) as [errno|p f ok]; proj.
  - eexists. split; [right; eexists; reflexivity|]. auto.
  - destruct ok; eexists; (split; [first [left; reflexivity | right; eexists; reflexivity]|]); auto.
Qed.

Lemma alive_poll_returns os p n s :
  (forall k wpid wstat,
     os_waitpid os k = WaitOk wpid wstat -> wpid <> 0 ->
     stopped_or_continued wstat = false) ->
  (0 < n)%nat ->
  alive_poll os p n s <> OutOfFuel.
Proof.
  intros Hq Hn. destruct n as [|n]; [lia|]. cbn [alive_poll].
  unfold sys_waitpid. run.
  destruct (os_waitpid os (n_waitpid (world s))) as [errno|wpid wstat] eqn:E;
    [discriminate|].
  destruct (wpid =? 0) eqn:Hz; [discriminate|].
  apply Z.eqb_neq in Hz. rewrite (Hq _ _ _ E Hz). discriminate.
Qed.

Lemma recovery_returns os fuel n :
  (forall recover s,
     (recover_max (self s) - recover_attempts (self s) < n)%nat ->
     alive_rec os fuel recover n s <> OutOfFuel) ->
  forall s,
  (recover_max (self s) - recover_attempts (self s) < S n)%nat ->
  (a <- get recover_attempts ;;
   m <- get recover_max ;;
   if (m <=? a)%nat then ret false
   else
     modify (set_recover_attempts (a + 1)) ;;
     initialize os ;;
     alive_rec os fuel true n) s <> OutOfFuel.
Proof.
  intros IH s Hs. unfold bind at 1, get at 1. unfold bind at 1, get at 1.
  destruct (recover_max (self s) <=? recover_attempts (self s))%nat eqn:Hle;
    [discriminate|].
  apply Nat.leb_gt in Hle. unfold bind at 1, modify at 1. unfold bind at 1.
  match goal with |- context [initialize os ?t] =>
    destruct (initialize_outcome os t) as (s' & [E|(e & E)] & H1 & H2);
    rewrite E end; [|discriminate].
  apply IH. rewrite H1, H2. proj. lia.
Qed.

Lemma alive_rec_returns os fuel :
  (forall k wpid wstat,
     os_waitpid os k = WaitOk wpid wstat -> wpid <> 0 ->
     stopped_or_continued wstat = false) ->
  (0 < fuel)%nat ->
  forall n recover s,
  (recover_max (self s) - recover_attempts (self s) < n)%nat ->
  alive_rec os fuel recover n s <> OutOfFuel.
Proof.
  intros Hq Hf. induction n as [|n IH]; intros recover s Hs; [lia|].
  cbn [alive_rec]. unfold bind at 1, get at 1. unfold bind at 1.
  destruct (child (self s)) as [p|].
  - unfold bind at 1.
    pose proof (alive_poll_returns os p fuel s Hq Hf) as Hp.
    pose proof (alive_poll_waited os p fuel s) as Hw.
    destruct (alive_poll os p fuel s) as [[wstat|] s1|e s1|];
      [| discriminate | discriminate | contradiction].
    unfold bind at 1, modify at 1. unfold bind at 1.
    match goal with |- context [finalize os fuel (Some wstat) ?t] =>
      destruct (finalize_status_frame os fuel wstat t)
        as (s2 & E & _ & _ & F1 & F2 & _); rewrite E end.
    unfold ret at 1. cbv iota. destruct (negb recover); [discriminate|].
    apply recovery_returns; [exact IH|].
    proj. destruct Hw as (W & _). rewrite F1, F2, W. exact Hs.
  - unfold ret at 1. cbv iota. destruct (negb recover); [discriminate|].
    now apply recovery_returns.
Qed.

(** The recursion of [alive] is bounded by the recoveries that remain:
    when no report of [waitpid] is a stop or a continuation, a bound above
    [recover_max - recover_attempts] suffices for [alive] to return or
    raise, with or without recovery. *)
Theorem alive_recursion_is_bounded
    (os : OS) (fuel : nat) (recover : bool) (s : Sys) :
  (forall k wpid wstat,
     os_waitpid os k = WaitOk wpid wstat -> wpid <> 0 ->
     stopped_or_continued wstat = false) ->
  (recover_max (self s) - recover_attempts (self s) < fuel)%nat ->
  alive os fuel recover s <> OutOfFuel.
Proof.
  intros Hq Hf. unfold alive. apply alive_rec_returns; auto. lia.
Qed.

Lemma alive_recursion_is_bounded_witness :
  alive Sample.doomed 4 true (Sample.running []) <> OutOfFuel.
Proof.
  apply (alive_recursion_is_bounded Sample.doomed 4 true (Sample.running [])).
  - intros k wpid wstat H _. cbn in H. injection H as _ <-. reflexivity.
  - cbn. lia.
Defined.

(** ** A child that keeps dying *)

Lemma alive_poll_dead os p n s wpid wstat :
  (0 < n)%nat ->
  os_waitpid os (n_waitpid (world s)) = WaitOk wpid wstat ->
  wpid <> 0 ->
  stopped_or_continued wstat = false ->
  alive_poll os p n s
  = Ret (Some wstat) {| self := self s; world := tick_waitpid (world s) |}.
Proof.
  intros Hn Hw Hz Hst. destruct n as [|n]; [lia|]. cbn [alive_poll].
  unfold sys_waitpid. run. rewrite Hw.
  replace (wpid =? 0) with false by (symmetry; now apply Z.eqb_neq).
  rewrite Hst. reflexivity.
Qed.

Section Doomed.

Variable os : OS.
Variable fuel : nat.

(** Every child is found dead at the first check, and every fork works. *)
Hypothesis dies :
  forall k, exists wpid wstat,
    os_waitpid os k = WaitOk wpid wstat /\ wpid <> 0 /\
    stopped_or_continued wstat = false.
Hypothesis forks : forall k, exists p f, os_fork os k = ForkOk p f true.
Hypothesis some_fuel : (0 < fuel)%nat.

(** What is proved of the state [s'] in which [alive] gives up. *)
Definition gave_up (s s' : Sys) : Prop :=
  recover_attempts (self s') = recover_max (self s) /\
  recover_max (self s') = recover_max (self s) /\
  n_fork (world s') =
    (n_fork (world s) + (recover_max (self s) - recover_attempts (self s)))%nat /\
  child (self s') = None /\
  cache (self s') = cache (self s).

Lemma recovery_gives_up n :
  (forall s,
     (recover_max (self s) - recover_attempts (self s) < n)%nat ->
     (recover_attempts (self s) <= recover_max (self s))%nat ->
     exists s', alive_rec os fuel true n s = Ret false s' /\ gave_up s s') ->
  forall s,
  child (self s) = None ->
  (recover_max (self s) - recover_attempts (self s) < S n)%nat ->
  (recover_attempts (self s) <= recover_max (self s))%nat ->
  exists s',
    (a <- get recover_attempts ;;
     m <- get recover_max ;;
     if (m <=? a)%nat then ret false
     else
       modify (set_recover_attempts (a + 1)) ;;
       initialize os ;;
       alive_rec os fuel true n) s = Ret false s' /\
    gave_up s s'.
Proof.
  intros IH s Hc Hs Hle. unfold bind at 1, get at 1. unfold bind at 1, get at 1.
  destruct (recover_max (self s) <=? recover_attempts (self s))%nat eqn:Hm.
  - apply Nat.leb_le in Hm. exists s. split; [reflexivity|].
    unfold gave_up. repeat split; auto; lia.
  - apply Nat.leb_gt in Hm. unfold bind at 1, modify at 1. unfold bind at 1.
    destruct (forks (n_fork (world s))) as (p & f & Hf).
    unfold initialize at 1, sys_fork. run. rewrite Hc. run. rewrite Hf.
    match goal with |- context [alive_rec os fuel true n ?t] =>
      destruct (IH t) as (s' & E & G1 & G2 & G3 & G4 & G5) end;
      proj; try lia.
    exists s'. split; [exact E|]. unfold gave_up. proj.
    repeat split; auto; lia.
Qed.

Lemma alive_rec_gives_up : forall n s,
  (recover_max (self s) - recover_attempts (self s) < n)%nat ->
  (recover_attempts (self s) <= recover_max (self s))%nat ->
  exists s', alive_rec os fuel true n s = Ret false s' /\ gave_up s s'.
Proof.
  induction n as [|n IH]; intros s Hs Hle; [lia|].
  cbn [alive_rec]. unfold bind at 1, get at 1. unfold bind at 1.
  destruct (child (self s)) as [p|] eqn:Hc.
  - destruct (dies (n_waitpid (world s))) as (wpid & wstat & Hw & Hz & Hst).
    unfold bind at 1.
    rewrite (alive_poll_dead os p fuel s wpid wstat some_fuel Hw Hz Hst).
    unfold bind at 1, modify at 1. unfold bind at 1.
    match goal with |- context [finalize os fuel (Some wstat) ?t] =>
      destruct (finalize_status_frame os fuel wstat t)
        as (s2 & E & F0 & F1 & F2 & F3 & F4 & _); rewrite E end.
    unfold ret at 1. cbv iota. cbn [negb]. proj.
    destruct (recovery_gives_up n IH s2 F0) as (s' & E' & G1 & G2 & G3 & G4 & G5);
      try (rewrite F2, F3; assumption).
    unmonad. exists s'. split; [exact E'|]. unfold gave_up.
    rewrite <- F1, <- F2, <- F3, <- F4. auto.
  - unfold ret at 1. cbv iota. cbn [negb]. now apply recovery_gives_up.
Qed.

End Doomed.

(** When every child is found dead at its first check and every fork
    works, [alive (recover=True)] respawns until the ceiling is reached and
    then answers [False]: it has made [recover_max - recover_attempts]
    forks, [recover_attempts] equals [recover_max], and the controller has
    no child. *)
Theorem alive_respawns_up_to_the_ceiling (os : OS) (fuel : nat) (s : Sys) :
  (forall k, exists wpid wstat,
     os_waitpid os k = WaitOk wpid wstat /\ wpid <> 0 /\
     stopped_or_continued wstat = false) ->
  (forall k, exists p f, os_fork os k = ForkOk p f true) ->
  (recover_attempts (self s) <= recover_max (self s))%nat ->
  (recover_max (self s) - recover_attempts (self s) < fuel)%nat ->
  exists s',
    alive os fuel true s = Ret false s' /\
    recover_attempts (self s') = recover_max (self s) /\
    n_fork (world s') =
      (n_fork (world s) + (recover_max (self s) - recover_attempts (self s)))%nat /\
    child (self s') = None.
Proof.
  intros Hd Hf Hle Hfuel.
  destruct (alive_rec_gives_up os fuel Hd Hf ltac:(lia) fuel s Hfuel Hle)
    as (s' & E & G1 & _ & G3 & G4 & _).
  exists s'. auto.
Qed.

Lemma alive_respawns_up_to_the_ceiling_witness :
  exists s',
    alive Sample.doomed 4 true (Sample.running []) = Ret false s' /\
    recover_attempts (self s') = 3%nat /\
    n_fork (world s') = 3%nat /\
    child (self s') = None.
Proof.
  apply (alive_respawns_up_to_the_ceiling Sample.doomed 4 (Sample.running [])).
  - intros k. exists 100, (WExited 1). repeat split. discriminate.
  - intros k. exists 101%positive, 4%positive. reflexivity.
  - cbn. lia.
  - cbn. lia.
Defined.

(** ** wait *)

(** A report that [wait] passes over: no child has changed state, or the
    child was stopped or continued. *)
Definition passed_over (r : wait_result) : bool :=
  match r with
  | WaitErr _ => false
  | WaitOk wpid wstat => (wpid =? 0) || stopped_or_continued wstat
  end.

(** How a wait status is recorded. *)
Definition recorded (wstat : wstatus) (p : PTYProcess) : Prop :=
  match wstat with
  | WExited code => exit_code p = Some code /\ exit_signal p = None
  | WSignaled sig => exit_code p = None /\ exit_signal p = Some sig
  | WStopped | WContinued => True
  end.

Lemma finalize_status_records os fuel wstat s :
  exists s', finalize os fuel (Some wstat) s = Ret tt s' /\
    recorded wstat (self s') /\
    n_waitpid (world s') = n_waitpid (world s) /\
    killed (world s') = killed (world s).
Proof.
  unfold finalize, sys_close. run.
  destruct wstat; proj;
    destruct (parent_out (self s)); proj;
    try destruct (os_close os (n_close (world s))); proj;
    eexists; repeat split; reflexivity.
Qed.

Lemma wait_loop_records os fuel p wpid wstat k : forall n s,
  child (self s) = Some p ->
  (k < n)%nat ->
  (forall j, (j < k)%nat ->
     passed_over (os_waitpid os (n_waitpid (world s) + j)) = true) ->
  os_waitpid os (n_waitpid (world s) + k) = WaitOk wpid wstat ->
  wpid <> 0 ->
  stopped_or_continued wstat = false ->
  exists s',
    wait_loop os fuel n s = Ret tt s' /\
    child (self s') = None /\
    cache (self s') = cache (self s) /\
    recorded wstat (self s') /\
    n_waitpid (world s') = (n_waitpid (world s) + S k)%nat /\
    killed (world s') = killed (world s).
Proof.
  induction k as [|k IH]; intros n s Hc Hn Hq Hw Hz Hst;
    (destruct n as [|n]; [lia|]); cbn [wait_loop];
    unfold bind at 1, get at 1; rewrite Hc;
    unfold bind at 1, sys_waitpid; run.
  - rewrite Nat.add_0_r in Hw. rewrite Hw.
    replace (wpid =? 0) with false by (symmetry; now apply Z.eqb_neq).
    rewrite Hst.
    match goal with |- context [finalize os fuel (Some wstat) ?t] =>
      destruct (finalize_status_frame os fuel wstat t)
        as (s2 & E & F0 & F1 & _);
      destruct (finalize_status_records os fuel wstat t)
        as (s3 & E3 & R1 & R2 & R3) end.
    rewrite E in E3. injection E3 as <-. rewrite E. proj.
    exists s2. repeat split; auto. lia.
  - pose proof (Hq 0%nat ltac:(lia)) as H0. rewrite Nat.add_0_r in H0.
    destruct (os_waitpid os (n_waitpid (world s))) as [errno|wpid0 wstat0];
      [discriminate|]. cbn [passed_over] in H0.
    assert (exists s',
              wait_loop os fuel n
                {| self := self s; world := tick_waitpid (world s) |} = Ret tt s' /\
              child (self s') = None /\
              cache (self s') = cache (self s) /\
              recorded wstat (self s') /\
              n_waitpid (world s') = (n_waitpid (world s) + S (S k))%nat /\
              killed (world s') = killed (world s)) as Hrec.
    { destruct (IH n {| self := self s; world := tick_waitpid (world s) |})
        as (s' & E & H1 & H2 & H3 & H4 & H5); proj; auto; try lia.
      - intros j Hj. replace (S (n_waitpid (world s)) + j)%nat
          with (n_waitpid (world s) + S j)%nat by lia. apply Hq. lia.
      - replace (S (n_waitpid (world s)) + k)%nat
          with (n_waitpid (world s) + S k)%nat by lia. exact Hw.
      - exists s'. repeat split; auto. lia. }
    destruct (wpid0 =? 0); [exact Hrec|].
    cbn [orb] in H0. rewrite H0. exact Hrec.
Qed.

(** [wait] passes over the reports "no change", "stopped" and
    "continued"; at the first report of a death it records the exit code
    of a child that exited, or the signal of a child that was killed, never
    both, leaves the controller without child and keeps the cache; it sends
    no signal itself. *)
Theorem wait_records_the_death
    (os : OS) (fuel k : nat) (s : Sys) (p : pid) (wpid : Z) (wstat : wstatus) :
  child (self s) = Some p ->
  (k < fuel)%nat ->
  (forall j, (j < k)%nat ->
     passed_over (os_waitpid os (n_waitpid (world s) + j)) = true) ->
  os_waitpid os (n_waitpid (world s) + k) = WaitOk wpid wstat ->
  wpid <> 0 ->
  stopped_or_continued wstat = false ->
  exists s',
    wait os fuel s = Ret tt s' /\
    child (self s') = None /\
    cache (self s') = cache (self s) /\
    recorded wstat (self s') /\
    n_waitpid (world s') = (n_waitpid (world s) + S k)%nat /\
    killed (world s') = killed (world s).
Proof.
  intros. unfold wait. now apply wait_loop_records with (p := p) (wpid := wpid).
Qed.

Lemma wait_records_the_death_witness :
  exists s',
    wait Sample.exited 1 (Sample.running (bs "bye")) = Ret tt s' /\
    child (self s') = None /\
    cache (self s') = bs "bye" /\
    (exit_code (self s') = Some 7 /\ exit_signal (self s') = None) /\
    n_waitpid (world s') = 1%nat /\
    killed (world s') = [].
Proof.
  apply (wait_records_the_death Sample.exited 1 0 (Sample.running (bs "bye"))
           100%positive 100 (WExited 7)).
  - reflexivity.
  - lia.
  - intros j Hj. lia.
  - reflexivity.
  - discriminate.
  - reflexivity.
Defined.
